(** * Remote OSS: authority codec, host registry and resolver

    A shallow embedding of [src/remotesView.ts] and of the transient-host
    command of [src/extension.ts], with the properties of the design
    document stated over it.

    Conventions.
    - A JavaScript string is the list of its UTF-16 code units, each a [Z]
      in [0, 65536).
    - A [Buffer] is the list of its bytes, each a [Z] in [0, 256).
    - A JavaScript number that holds an integer is a [Z]; the model is exact
      on the safe integers ([Number.isSafeInteger]), which print in plain
      decimal.
    - [async] methods are computations in a state-and-exception monad over
      the part of the extension host they read or write. *)

From Stdlib Require Import ZArith List Bool Lia String Ascii.
Import ListNotations.
Open Scope Z_scope.

(** ** JavaScript strings *)

Module JsString.

Definition jsstring := list Z.

(** A string literal of the source, as code units. *)
Definition js (s : string) : jsstring :=
  map (fun a => Z.of_N (N_of_ascii a)) (list_ascii_of_string s).

Definition in_range (lo hi c : Z) : bool := (lo <=? c) && (c <=? hi).

Definition is_code_unit (c : Z) : bool := in_range 0 65535 c.
Definition is_byte (b : Z) : bool := in_range 0 255 b.
Definition is_high_surrogate (c : Z) : bool := in_range 0xD800 0xDBFF c.
Definition is_low_surrogate (c : Z) : bool := in_range 0xDC00 0xDFFF c.

(** The value is a string: every element is a code unit. *)
Definition is_string (s : jsstring) : bool := forallb is_code_unit s.

(** [a === b] on strings. *)
Fixpoint strict_eq (a b : jsstring) : bool :=
  match a, b with
  | [], [] => true
  | x :: a', y :: b' => (x =? y) && strict_eq a' b'
  | _, _ => false
  end.

(** [!s] on a string: only the empty string is falsy. *)
Definition falsy (s : jsstring) : bool :=
  match s with [] => true | _ :: _ => false end.

(** [!v] on [string | undefined]: [undefined] and the empty string are
    falsy. *)
Definition js_not (v : option jsstring) : bool :=
  match v with
  | None => true
  | Some s => falsy s
  end.

(** [s.startsWith(p)], returning what follows the prefix. *)
Fixpoint strip_prefix (p s : jsstring) : option jsstring :=
  match p, s with
  | [], _ => Some s
  | x :: p', y :: s' => if x =? y then strip_prefix p' s' else None
  | _ :: _, [] => None
  end.

(** No unpaired surrogate: the strings on which UTF-8 is lossless. *)
Inductive WellFormed : jsstring -> Prop :=
| wf_nil : WellFormed []
| wf_unit c s :
    is_code_unit c = true -> in_range 0xD800 0xDFFF c = false ->
    WellFormed s -> WellFormed (c :: s)
| wf_pair c d s :
    is_high_surrogate c = true -> is_low_surrogate d = true ->
    WellFormed s -> WellFormed (c :: d :: s).

End JsString.
Import JsString.

(** ** Buffers: UTF-8 and base64 *)

Module Buffer.

Definition replacement : list Z := [0xEF; 0xBF; 0xBD].

Definition utf8_of_code_point (c : Z) : list Z :=
  if c <? 0x80 then [c]
  else if c <? 0x800 then [0xC0 + c / 64; 0x80 + c mod 64]
  else if c <? 0x10000 then
    [0xE0 + c / 4096; 0x80 + (c / 64) mod 64; 0x80 + c mod 64]
  else
    [0xF0 + c / 262144; 0x80 + (c / 4096) mod 64;
     0x80 + (c / 64) mod 64; 0x80 + c mod 64].

Definition code_point_of_pair (hi lo : Z) : Z :=
  0x10000 + (hi - 0xD800) * 1024 + (lo - 0xDC00).

(** [Buffer.from(s)]: the UTF-8 bytes of [s]; a surrogate pair is one code
    point, an unpaired surrogate becomes U+FFFD. *)
Fixpoint from_utf8 (s : jsstring) : list Z :=
  match s with
  | [] => []
  | c :: s' =>
      if is_high_surrogate c then
        match s' with
        | d :: s'' =>
            if is_low_surrogate d
            then utf8_of_code_point (code_point_of_pair c d) ++ from_utf8 s''
            else replacement ++ from_utf8 s'
        | [] => replacement
        end
      else if is_low_surrogate c then replacement ++ from_utf8 s'
      else utf8_of_code_point c ++ from_utf8 s'
  end.

Definition utf16_of_code_point (c : Z) : jsstring :=
  if c <? 0x10000 then [c]
  else [0xD800 + (c - 0x10000) / 1024; 0xDC00 + (c - 0x10000) mod 1024].

Definition cont (b : Z) : Z := b - 0x80.

(** [buf.toString()]: UTF-8 decoding; every maximal ill-formed prefix
    becomes U+FFFD and decoding resumes at the offending byte. *)
Fixpoint toString_utf8 (bs : list Z) : jsstring :=
  match bs with
  | [] => []
  | b1 :: r1 =>
      if b1 <? 0x80 then b1 :: toString_utf8 r1
      else if in_range 0xC2 0xDF b1 then
        match r1 with
        | b2 :: r2 =>
            if in_range 0x80 0xBF b2
            then ((b1 - 0xC0) * 64 + cont b2) :: toString_utf8 r2
            else 0xFFFD :: toString_utf8 r1
        | [] => [0xFFFD]
        end
      else if in_range 0xE0 0xEF b1 then
        match r1 with
        | b2 :: r2 =>
            if in_range (if b1 =? 0xE0 then 0xA0 else 0x80)
                        (if b1 =? 0xED then 0x9F else 0xBF) b2
            then
              match r2 with
              | b3 :: r3 =>
                  if in_range 0x80 0xBF b3
                  then ((b1 - 0xE0) * 4096 + cont b2 * 64 + cont b3)
                         :: toString_utf8 r3
                  else 0xFFFD :: toString_utf8 r2
              | [] => [0xFFFD]
              end
            else 0xFFFD :: toString_utf8 r1
        | [] => [0xFFFD]
        end
      else if in_range 0xF0 0xF4 b1 then
        match r1 with
        | b2 :: r2 =>
            if in_range (if b1 =? 0xF0 then 0x90 else 0x80)
                        (if b1 =? 0xF4 then 0x8F else 0xBF) b2
            then
              match r2 with
              | b3 :: r3 =>
                  if in_range 0x80 0xBF b3
                  then
                    match r3 with
                    | b4 :: r4 =>
                        if in_range 0x80 0xBF b4
                        then
                          utf16_of_code_point
                            ((b1 - 0xF0) * 262144 + cont b2 * 4096
                             + cont b3 * 64 + cont b4)
                            ++ toString_utf8 r4
                        else 0xFFFD :: toString_utf8 r3
                    | [] => [0xFFFD]
                    end
                  else 0xFFFD :: toString_utf8 r2
              | [] => [0xFFFD]
              end
            else 0xFFFD :: toString_utf8 r1
        | [] => [0xFFFD]
        end
      else 0xFFFD :: toString_utf8 r1
  end.

(** The base64 alphabet: [A-Z], [a-z], [0-9], [+], [/]. *)
Definition b64_char (n : Z) : Z :=
  if n <? 26 then 65 + n
  else if n <? 52 then 97 + (n - 26)
  else if n <? 62 then 48 + (n - 52)
  else if n =? 62 then 43 else 47.

(** The decoder's table, on a byte; it also reads the URL-safe [-] and
    [_]. *)
Definition unbase64 (c : Z) : option Z :=
  if in_range 65 90 c then Some (c - 65)
  else if in_range 97 122 c then Some (c - 97 + 26)
  else if in_range 48 57 c then Some (c - 48 + 52)
  else if (c =? 43) || (c =? 45) then Some 62
  else if (c =? 47) || (c =? 95) then Some 63
  else None.

Definition pad : Z := 61.

(** [buf.toString("base64")]. *)
Fixpoint toString_base64 (bs : list Z) : jsstring :=
  match bs with
  | [] => []
  | [a] => [b64_char (a / 4); b64_char (a mod 4 * 16); pad; pad]
  | [a; b] =>
      [b64_char (a / 4); b64_char (a mod 4 * 16 + b / 16);
       b64_char (b mod 16 * 4); pad]
  | a :: b :: c :: r =>
      [b64_char (a / 4); b64_char (a mod 4 * 16 + b / 16);
       b64_char (b mod 16 * 4 + c / 64); b64_char (c mod 64)]
        ++ toString_base64 r
  end.

(** The decoder reads each code unit of the string as a [uint8_t]: its low
    byte. *)
Definition low_byte (c : Z) : Z := c mod 256.

(** The legal characters of the input up to the first [=], as 6-bit values:
    the decoder is forgiving and steps over anything else.  Both tests are
    made on the low byte of the code unit. *)
Fixpoint sextets (s : jsstring) : list Z :=
  match s with
  | [] => []
  | c :: s' =>
      let b := low_byte c in
      if b =? pad then []
      else match unbase64 b with
           | Some v => v :: sextets s'
           | None => sextets s'
           end
  end.

Fixpoint bytes_of_sextets (q : list Z) : list Z :=
  match q with
  | a :: b :: c :: d :: r =>
      [a * 4 + b / 16; b mod 16 * 16 + c / 4; c mod 4 * 64 + d]
        ++ bytes_of_sextets r
  | [a; b; c] => [a * 4 + b / 16; b mod 16 * 16 + c / 4]
  | [a; b] => [a * 4 + b / 16]
  | _ => []
  end.

(** [Buffer.from(s, "base64")]. *)
Definition from_base64 (s : jsstring) : list Z := bytes_of_sextets (sextets s).

End Buffer.

(** ** JSON *)

Module JSON.

(** A value of the JSON data model.  A number is kept as the exact decimal
    [m * 10^e] its literal denotes; an integer literal [n] is [JNumber n 0].
    An object lists its members in the order of first appearance. *)
#[warnings="-register-all"] Inductive json :=
| JNull
| JBool (b : bool)
| JNumber (m e : Z)
| JString (s : jsstring)
| JArray (items : list json)
| JObject (members : list (jsstring * json)).

(** *** [JSON.stringify] on strings and integers *)

Definition hex_digit (n : Z) : Z := if n <? 10 then 48 + n else 97 + (n - 10).

Definition unicode_escape (c : Z) : jsstring :=
  [92; 117; hex_digit (c / 4096); hex_digit (c / 256 mod 16);
   hex_digit (c / 16 mod 16); hex_digit (c mod 16)].

(** One code unit that is not part of a surrogate pair. *)
Definition quote_unit (c : Z) : jsstring :=
  if c =? 8 then [92; 98]
  else if c =? 9 then [92; 116]
  else if c =? 10 then [92; 110]
  else if c =? 12 then [92; 102]
  else if c =? 13 then [92; 114]
  else if c =? 34 then [92; 34]
  else if c =? 92 then [92; 92]
  else if (c <? 0x20) || in_range 0xD800 0xDFFF c then unicode_escape c
  else [c].

(** The characters [QuoteJSONString] puts between the quotes: it walks the
    code points, so a surrogate pair is copied and a lone surrogate is
    escaped. *)
Fixpoint quote_body (s : jsstring) : jsstring :=
  match s with
  | [] => []
  | c :: s' =>
      if is_high_surrogate c then
        match s' with
        | d :: s'' =>
            if is_low_surrogate d then c :: d :: quote_body s''
            else unicode_escape c ++ quote_body s'
        | [] => unicode_escape c
        end
      else quote_unit c ++ quote_body s'
  end.

Definition QuoteJSONString (s : jsstring) : jsstring :=
  [34] ++ quote_body s ++ [34].

(** The decimal digits of [z >= 0], most significant first, put before
    [acc]; [fuel] bounds the number of digits. *)
Fixpoint digits_before (fuel : nat) (z : Z) (acc : jsstring) : jsstring :=
  match fuel with
  | O => acc
  | S fuel' =>
      let acc' := (48 + z mod 10) :: acc in
      if z <? 10 then acc' else digits_before fuel' (z / 10) acc'
  end.

(** [Number::toString] on an integer.  The text is the code's for the safe
    integers, up to 2^53 - 1 in magnitude, and for every number that is an
    integer below 10^21; from there on the code prints an exponent.  The
    numbers that are no integers, NaN and the infinities among them, have
    no counterpart here.  The properties that depend on the text of a port
    keep it within the safe integers. *)
Definition Number_toString (z : Z) : jsstring :=
  let a := Z.abs z in
  let ds := digits_before (S (Z.to_nat (Z.log2 a))) a [] in
  if z <? 0 then 45 :: ds else ds.

(** *** [JSON.parse] *)

Inductive token :=
| TLBrace | TRBrace | TLBracket | TRBracket | TColon | TComma
| TString (s : jsstring)
| TNumber (m e : Z)
| TTrue | TFalse | TNull.

Definition is_ws (c : Z) : bool :=
  (c =? 9) || (c =? 10) || (c =? 13) || (c =? 32).
Definition is_digit (c : Z) : bool := in_range 48 57 c.
Definition is_number_char (c : Z) : bool :=
  is_digit c || (c =? 45) || (c =? 43) || (c =? 46) || (c =? 101) || (c =? 69).
Definition is_letter (c : Z) : bool := in_range 97 122 c.

Definition hex_value (c : Z) : option Z :=
  if is_digit c then Some (c - 48)
  else if in_range 97 102 c then Some (c - 97 + 10)
  else if in_range 65 70 c then Some (c - 65 + 10)
  else None.

(** The character an escape letter stands for. *)
Definition escape_value (c : Z) : option Z :=
  if c =? 34 then Some 34
  else if c =? 92 then Some 92
  else if c =? 47 then Some 47
  else if c =? 98 then Some 8
  else if c =? 102 then Some 12
  else if c =? 110 then Some 10
  else if c =? 114 then Some 13
  else if c =? 116 then Some 9
  else None.

Fixpoint span_digits (s : jsstring) : list Z * jsstring :=
  match s with
  | [] => ([], [])
  | c :: s' =>
      if is_digit c
      then let (ds, r) := span_digits s' in ((c - 48) :: ds, r)
      else ([], s)
  end.

Definition digits_value (ds : list Z) : Z :=
  fold_left (fun a d => a * 10 + d) ds 0.

Definition no_leading_zero (ds : list Z) : bool :=
  match ds with
  | [] => false
  | [_] => true
  | d :: _ => negb (d =? 0)
  end.

(** A number lexeme: an optional minus sign; an integer part, a single 0 or
    digits that do not start with 0; an optional fraction, a dot and one or
    more digits; an optional exponent, e or E, an optional sign and one or
    more digits. *)
Definition number_of_lexeme (s : jsstring) : option (Z * Z) :=
  let '(sign, s1) :=
    match s with
    | c :: r => if c =? 45 then (-1, r) else (1, s)
    | [] => (1, s)
    end in
  let '(int, s2) := span_digits s1 in
  if negb (no_leading_zero int) then None
  else
    let frac_part :=
      match s2 with
      | c :: r =>
          if c =? 46
          then let '(f, r') := span_digits r in
               match f with [] => None | _ => Some (f, r') end
          else Some ([], s2)
      | [] => Some ([], s2)
      end in
    match frac_part with
    | None => None
    | Some (frac, s3) =>
        let m := sign * digits_value (int ++ frac) in
        let shift := Z.of_nat (List.length frac) in
        match s3 with
        | [] => Some (m, - shift)
        | c :: r =>
            if (c =? 101) || (c =? 69) then
              let '(esign, r1) :=
                match r with
                | x :: r' =>
                    if x =? 45 then (-1, r')
                    else if x =? 43 then (1, r') else (1, r)
                | [] => (1, r)
                end in
              match span_digits r1 with
              | ((_ :: _) as ex, []) => Some (m, esign * digits_value ex - shift)
              | _ => None
              end
            else None
        end
    end.

Definition word_token (w : jsstring) : option token :=
  if strict_eq w (js "true") then Some TTrue
  else if strict_eq w (js "false") then Some TFalse
  else if strict_eq w (js "null") then Some TNull
  else None.

Definition number_token (w : jsstring) : option token :=
  match number_of_lexeme w with
  | Some (m, e) => Some (TNumber m e)
  | None => None
  end.

Inductive lex_state :=
| LStart
| LString (acc : jsstring)
| LEscape (acc : jsstring)
| LUnicode (acc : jsstring) (seen : nat) (v : Z)
| LNumber (acc : jsstring)
| LWord (acc : jsstring).

(** One character read between tokens: the state it leaves the scanner in
    and the token it completes, if any. *)
Definition start_step (c : Z) : option (lex_state * list token) :=
  if is_ws c then Some (LStart, [])
  else if c =? 34 then Some (LString [], [])
  else if c =? 123 then Some (LStart, [TLBrace])
  else if c =? 125 then Some (LStart, [TRBrace])
  else if c =? 91 then Some (LStart, [TLBracket])
  else if c =? 93 then Some (LStart, [TRBracket])
  else if c =? 58 then Some (LStart, [TColon])
  else if c =? 44 then Some (LStart, [TComma])
  else if is_digit c || (c =? 45) then Some (LNumber [c], [])
  else if is_letter c then Some (LWord [c], [])
  else None.

Definition emit (ts : list token) (r : option (list token)) :=
  option_map (app ts) r.

(** The scanner, one code unit at a time. *)
Fixpoint lex (st : lex_state) (s : jsstring) : option (list token) :=
  match s with
  | [] =>
      match st with
      | LStart => Some []
      | LNumber acc => option_map (fun t => [t]) (number_token acc)
      | LWord acc => option_map (fun t => [t]) (word_token acc)
      | _ => None
      end
  | c :: s' =>
      match st with
      | LStart =>
          match start_step c with
          | Some (st', ts) => emit ts (lex st' s')
          | None => None
          end
      | LString acc =>
          if c =? 34 then emit [TString acc] (lex LStart s')
          else if c =? 92 then lex (LEscape acc) s'
          else if c <? 0x20 then None
          else lex (LString (acc ++ [c])) s'
      | LEscape acc =>
          if c =? 117 then lex (LUnicode acc 0 0) s'
          else match escape_value c with
               | Some v => lex (LString (acc ++ [v])) s'
               | None => None
               end
      | LUnicode acc seen v =>
          match hex_value c with
          | Some h =>
              let v' := v * 16 + h in
              match seen with
              | 3%nat => lex (LString (acc ++ [v'])) s'
              | _ => lex (LUnicode acc (S seen) v') s'
              end
          | None => None
          end
      | LNumber acc =>
          if is_number_char c then lex (LNumber (acc ++ [c])) s'
          else
            match number_token acc, start_step c with
            | Some t, Some (st', ts) => emit (t :: ts) (lex st' s')
            | _, _ => None
            end
      | LWord acc =>
          if is_letter c then lex (LWord (acc ++ [c])) s'
          else
            match word_token acc, start_step c with
            | Some t, Some (st', ts) => emit (t :: ts) (lex st' s')
            | _, _ => None
            end
      end
  end.

(** A member read into an object: a repeated key keeps its place and takes
    the new value. *)
Fixpoint set_member (k : jsstring) (v : json) (ms : list (jsstring * json))
  : list (jsstring * json) :=
  match ms with
  | [] => [(k, v)]
  | (k', v') :: ms' =>
      if strict_eq k' k then (k', v) :: ms' else (k', v') :: set_member k v ms'
  end.

(** An enclosing array or object that is still open. *)
Inductive frame :=
| FArray (items : list json)
| FObject (members : list (jsstring * json)) (key : jsstring).

Inductive parse_state :=
| PValue
| PArrayFirst
| PObjectFirst
| PKey (members : list (jsstring * json))
| PColon (members : list (jsstring * json)) (key : jsstring)
| PAfter (v : json).

Definition scalar (t : token) : option json :=
  match t with
  | TString s => Some (JString s)
  | TNumber m e => Some (JNumber m e)
  | TTrue => Some (JBool true)
  | TFalse => Some (JBool false)
  | TNull => Some JNull
  | _ => None
  end.

(** A token where a value must start. *)
Definition value_step (t : token) (stack : list frame)
  : option (parse_state * list frame) :=
  match t with
  | TLBracket => Some (PArrayFirst, stack)
  | TLBrace => Some (PObjectFirst, stack)
  | _ => match scalar t with
         | Some v => Some (PAfter v, stack)
         | None => None
         end
  end.

Definition parse_step (st : parse_state) (stack : list frame) (t : token)
  : option (parse_state * list frame) :=
  match st with
  | PValue => value_step t stack
  | PArrayFirst =>
      match t with
      | TRBracket => Some (PAfter (JArray []), stack)
      | _ => value_step t (FArray [] :: stack)
      end
  | PObjectFirst =>
      match t with
      | TRBrace => Some (PAfter (JObject []), stack)
      | TString k => Some (PColon [] k, stack)
      | _ => None
      end
  | PKey ms =>
      match t with
      | TString k => Some (PColon ms k, stack)
      | _ => None
      end
  | PColon ms k =>
      match t with
      | TColon => Some (PValue, FObject ms k :: stack)
      | _ => None
      end
  | PAfter v =>
      match stack, t with
      | FArray items :: stack', TComma =>
          Some (PValue, FArray (items ++ [v]) :: stack')
      | FArray items :: stack', TRBracket =>
          Some (PAfter (JArray (items ++ [v])), stack')
      | FObject ms k :: stack', TComma => Some (PKey (set_member k v ms), stack')
      | FObject ms k :: stack', TRBrace =>
          Some (PAfter (JObject (set_member k v ms)), stack')
      | _, _ => None
      end
  end.

Fixpoint parse_tokens (st : parse_state) (stack : list frame) (ts : list token)
  : option json :=
  match ts with
  | [] =>
      match st, stack with
      | PAfter v, [] => Some v
      | _, _ => None
      end
  | t :: ts' =>
      match parse_step st stack t with
      | Some (st', stack') => parse_tokens st' stack' ts'
      | None => None
      end
  end.

(** [JSON.parse(text)]: [None] stands for the [SyntaxError] it throws. *)
Definition parse (text : jsstring) : option json :=
  match lex LStart text with
  | Some ts => parse_tokens PValue [] ts
  | None => None
  end.

End JSON.

(** ** Completions and exceptions *)

Inductive exn :=
| SyntaxError                      (* thrown by [JSON.parse] *)
| NotAvailable (msg : jsstring)    (* [RemoteAuthorityResolverError.NotAvailable] *)
| Error (msg : jsstring)           (* [new Error(msg)] *)
| OutOfFuel.                       (* the model's recursion bound was reached *)

Inductive completion (A : Type) :=
| Return (a : A)
| Throw (e : exn).
Arguments Return {A} a.
Arguments Throw {A} e.

(** ** The authority codec ([encode_remote_host], [decode_remote_host]) *)

Inductive HostType := Transient | Configured.

Module HostInfo.
Record t := { type : HostType; host : jsstring; port : option Z }.
End HostInfo.

Module Codec.

Definition type_name (t : HostType) : jsstring :=
  match t with
  | Transient => js "transient"
  | Configured => js "configured"
  end.

(** [JSON.stringify(info)] for [info : HostInfo]: the members in the order
    [type], [host], [port], the last left out when it is undefined. *)
Definition JSON_stringify (info : HostInfo.t) : jsstring :=
  js "{" ++ JSON.QuoteJSONString (js "type") ++ js ":"
    ++ JSON.QuoteJSONString (type_name (HostInfo.type info))
    ++ js "," ++ JSON.QuoteJSONString (js "host") ++ js ":"
    ++ JSON.QuoteJSONString (HostInfo.host info)
    ++ match HostInfo.port info with
       | Some p =>
           js "," ++ JSON.QuoteJSONString (js "port") ++ js ":"
             ++ JSON.Number_toString p
       | None => []
       end
    ++ js "}".

(** The object [info] as a JSON value. *)
Definition to_json (info : HostInfo.t) : JSON.json :=
  JSON.JObject
    ([(js "type", JSON.JString (type_name (HostInfo.type info)));
      (js "host", JSON.JString (HostInfo.host info))]
       ++ match HostInfo.port info with
          | Some p => [(js "port", JSON.JNumber p 0)]
          | None => []
          end).

Definition marker : jsstring := js "remote-oss+".

Definition encode_remote_host (info : HostInfo.t) : jsstring :=
  let json := JSON_stringify info in
  let base64 := Buffer.toString_base64 (Buffer.from_utf8 json) in
  marker ++ base64.

Definition is_line_terminator (c : Z) : bool :=
  (c =? 10) || (c =? 13) || (c =? 0x2028) || (c =? 0x2029).

(** The group of the pattern, a dot under a star: the longest run without a
    line terminator. *)
Fixpoint dot_star (s : jsstring) : jsstring :=
  match s with
  | [] => []
  | c :: s' => if is_line_terminator c then [] else c :: dot_star s'
  end.

(** [encoded.match(...)] with the marker pattern, which is not anchored: it
    is tried at every position from the left; the result is the group of the
    first match. *)
Fixpoint match_marker (encoded : jsstring) : option jsstring :=
  match strip_prefix marker encoded with
  | Some rest => Some (dot_star rest)
  | None =>
      match encoded with
      | [] => None
      | _ :: s' => match_marker s'
      end
  end.

(** The result is what [JSON.parse] returned, unchecked; [Return None] is
    [undefined]. *)
Definition decode_remote_host (encoded : jsstring)
  : completion (option JSON.json) :=
  match match_marker encoded with
  | Some base64 =>
      let json := Buffer.toString_utf8 (Buffer.from_base64 base64) in
      match JSON.parse json with
      | Some info => Return (Some info)
      | None => Throw SyntaxError
      end
  | None => Return None
  end.

(** A host reference of the design: the port is there exactly for a
    transient host; the host is a string and the port a safe integer. *)
Definition valid (r : HostInfo.t) : bool :=
  is_string (HostInfo.host r)
  && match HostInfo.type r, HostInfo.port r with
     | Transient, Some p => in_range (- (2 ^ 53 - 1)) (2 ^ 53 - 1) p
     | Configured, None => true
     | _, _ => false
     end.

End Codec.

(** ** The tree items *)

(** A label or name read from the settings: the source tests at run time
    that it is a string. *)
Inductive label_value :=
| LabelString (s : jsstring)
| LabelOther.

(** A [connectionToken]: [string | boolean]. *)
Inductive token_value :=
| TokBool (b : bool)
| TokString (s : jsstring).

Inductive TreeItemCollapsibleState := CollapsedNone | Collapsed | Expanded.

(** Modelled from the spec: the declarations of [./remotesConfig]
    ([HostConfig], [HostKind]) are not part of the sources at hand; the
    record follows the configuration contract of the design document. *)
Inductive HostKind := Manual | OtherKind.

Inductive FolderConfig :=
| FolderPath (path : jsstring)
| FolderEntry (name path : jsstring).

Module HostConfig.
Record t := {
  type : HostKind;
  name : label_value;
  host : jsstring;
  port : Z;
  connectionToken : option token_value;
  folders : option (list FolderConfig)
}.
End HostConfig.

Module FolderItem.
Record t := { label : jsstring; host : jsstring; path : jsstring }.
End FolderItem.

Module PlainHostItem.
Record t := {
  label : label_value;
  collapsibleState : TreeItemCollapsibleState;
  name : label_value;
  folders : list FolderItem.t;
  host : jsstring;
  port : Z;
  connectionToken : token_value
}.

(** [new PlainHostItem(label, host, port, connectionToken)]. *)
Definition new (label : label_value) (host : jsstring) (port : Z)
    (connectionToken : token_value) : t :=
  {| label := label; collapsibleState := CollapsedNone; name := label;
     folders := []; host := host; port := port;
     connectionToken := connectionToken |}.

Definition addFolder (this : t) (folder : FolderItem.t) : t :=
  {| label := label this; collapsibleState := Expanded; name := name this;
     folders := folders this ++ [folder]; host := host this;
     port := port this; connectionToken := connectionToken this |}.
End PlainHostItem.

Module KindItem.
Record t := { label : jsstring; hosts : list PlainHostItem.t }.

Definition new (label : jsstring) : t := {| label := label; hosts := [] |}.

Definition addHost (this : t) (host : PlainHostItem.t) : t :=
  {| label := label this; hosts := hosts this ++ [host] |}.
End KindItem.

Inductive TreeItem :=
| Kind (k : KindItem.t)
| Host (h : PlainHostItem.t)
| Folder (f : FolderItem.t).

(** [new ResolvedAuthority(host, port, connectionToken?)]. *)
Module ResolvedAuthority.
Record t := {
  host : jsstring;
  port : option Z;
  connectionToken : option jsstring
}.
End ResolvedAuthority.

(** ** The provider ([RemotesDataProvider]) *)

Module Provider.

(** What the provider reads and writes. *)
Record world := {
  (** [workspace.getConfiguration().get("remote.OSS.hosts")]; [None] is a
      falsy value. *)
  configuration : option (list HostConfig.t);
  (** The field [remotesTree]; [None] is [null]. *)
  remotesTree : option (list TreeItem);
  (** The context key [remote-oss:noHosts], once set. *)
  noHosts : option bool;
  (** How often [onDidChangeTreeData] fired. *)
  fired : nat;
  (** The user's answer to the n-th input box; [None] when dismissed. *)
  inputBox : nat -> option jsstring;
  (** The input boxes shown so far. *)
  shown : nat
}.

Definition M (A : Type) : Type := world -> completion A * world.

Definition ret {A} (a : A) : M A := fun w => (Return a, w).

Definition bind {A B} (c : M A) (k : A -> M B) : M B :=
  fun w =>
    match c w with
    | (Return a, w') => k a w'
    | (Throw e, w') => (Throw e, w')
    end.

Definition throw {A} (e : exn) : M A := fun w => (Throw e, w).

Notation "x <- c ;; k" := (bind c (fun x => k))
  (at level 61, c at next level, right associativity).
Notation "c ;;; k" := (bind c (fun _ => k))
  (at level 61, right associativity).

(** [workspace.getConfiguration().get("remote.OSS.hosts")]. *)
Definition getConfiguration : M (option (list HostConfig.t)) :=
  fun w => (Return (configuration w), w).

(** [this.remotesTree]. *)
Definition get_remotesTree : M (option (list TreeItem)) :=
  fun w => (Return (remotesTree w), w).

(** [commands.executeCommand("setContext", "remote-oss:noHosts", enabled)]. *)
Definition setNoHostsContext (enabled : bool) : M unit :=
  fun w =>
    (Return tt,
     {| configuration := configuration w; remotesTree := remotesTree w;
        noHosts := Some enabled; fired := fired w;
        inputBox := inputBox w; shown := shown w |}).

(** [this.remotesTree = tree]. *)
Definition set_remotesTree (tree : list TreeItem) : M unit :=
  fun w =>
    (Return tt,
     {| configuration := configuration w; remotesTree := Some tree;
        noHosts := noHosts w; fired := fired w;
        inputBox := inputBox w; shown := shown w |}).

(** [this._onDidChangeTreeData.fire(null)]. *)
Definition fire_onDidChangeTreeData : M unit :=
  fun w =>
    (Return tt,
     {| configuration := configuration w; remotesTree := remotesTree w;
        noHosts := noHosts w; fired := S (fired w);
        inputBox := inputBox w; shown := shown w |}).

(** [window.showInputBox(...)]. *)
Definition showInputBox : M (option jsstring) :=
  fun w =>
    (Return (inputBox w (shown w)),
     {| configuration := configuration w; remotesTree := remotesTree w;
        noHosts := noHosts w; fired := fired w;
        inputBox := inputBox w; shown := S (shown w) |}).

(** [if (!connectionToken && typeof connectionToken !== "boolean")
    connectionToken = true]. *)
Definition normalize_token (connectionToken : option token_value)
  : token_value :=
  match connectionToken with
  | None => TokBool true
  | Some (TokBool b) => TokBool b
  | Some (TokString s) => if falsy s then TokBool true else TokString s
  end.

(** One turn of the loop over [host.folders]. *)
Definition attach_folder (hostItem : PlainHostItem.t) (folder : FolderConfig)
  : PlainHostItem.t :=
  match PlainHostItem.label hostItem with
  | LabelOther => hostItem
  | LabelString hostName =>
      match folder with
      | FolderPath path =>
          PlainHostItem.addFolder hostItem
            {| FolderItem.label := path; FolderItem.host := hostName;
               FolderItem.path := path |}
      | FolderEntry name path =>
          PlainHostItem.addFolder hostItem
            {| FolderItem.label := name; FolderItem.host := hostName;
               FolderItem.path := path |}
      end
  end.

(** The item built for one record of the supported kind, with its folders.
    The source pushes the item into the group first and attaches the
    folders to that same object afterwards. *)
Definition host_item (host : HostConfig.t) : PlainHostItem.t :=
  let connectionToken := normalize_token (HostConfig.connectionToken host) in
  let hostItem :=
    PlainHostItem.new (HostConfig.name host) (HostConfig.host host)
      (HostConfig.port host) connectionToken in
  match HostConfig.folders host with
  | Some folders => fold_left attach_folder folders hostItem
  | None => hostItem
  end.

(** The loop over the records: the group and the counter. *)
Fixpoint read_hosts (hosts : list HostConfig.t) (manual : KindItem.t)
    (numberOfHosts : nat) : KindItem.t * nat :=
  match hosts with
  | [] => (manual, numberOfHosts)
  | host :: rest =>
      match HostConfig.type host with
      | Manual =>
          read_hosts rest (KindItem.addHost manual (host_item host))
            (S numberOfHosts)
      | OtherKind => read_hosts rest manual numberOfHosts
      end
  end.

Definition nonempty {A} (l : list A) : bool :=
  match l with [] => false | _ :: _ => true end.

(** The tree and the counter at the end of [readTree]'s first part. *)
Definition build_tree (value : option (list HostConfig.t))
  : list TreeItem * nat :=
  match value with
  | Some hosts =>
      let '(manual, numberOfHosts) :=
        read_hosts hosts (KindItem.new (js "manual")) 0 in
      (if nonempty (KindItem.hosts manual) then [Kind manual] else [],
       numberOfHosts)
  | None => ([], 0%nat)
  end.

Definition readTree : M unit :=
  value <- getConfiguration ;;
  let '(tree, numberOfHosts) := build_tree value in
  setNoHostsContext (Nat.eqb numberOfHosts 0) ;;;
  set_remotesTree tree ;;;
  fire_onDidChangeTreeData.

Definition getChildren (element : option TreeItem) : M (list TreeItem) :=
  tree <- get_remotesTree ;;
  match tree with
  | None => readTree
  | Some _ => ret tt
  end ;;;
  match element with
  | Some (Host h) => ret (map Folder (PlainHostItem.folders h))
  | Some (Kind k) => ret (map Host (KindItem.hosts k))
  | Some (Folder _) => ret []
  | None =>
      tree <- get_remotesTree ;;
      match tree with
      | Some tree => ret tree
      | None => ret []
      end
  end.

(** [_getHostList(out, root)]; [depth] bounds the nesting of the calls. *)
Fixpoint _getHostList (depth : nat) (out : list PlainHostItem.t)
    (root : list TreeItem) {struct depth} : M (list PlainHostItem.t) :=
  match depth with
  | O => throw OutOfFuel
  | S depth' =>
      (fix loop (root : list TreeItem) (out : list PlainHostItem.t)
         : M (list PlainHostItem.t) :=
         match root with
         | [] => ret out
         | Host entry :: rest => loop rest (out ++ [entry])
         | entry :: rest =>
             children <- getChildren (Some entry) ;;
             out' <- _getHostList depth' out children ;;
             loop rest out'
         end) root out
  end.

(** The tree is the root, its groups and their hosts: three levels. *)
Definition getHostList : M (list PlainHostItem.t) :=
  root <- getChildren None ;;
  _getHostList 3 [] root.

Definition pickToken : M (option jsstring) :=
  raw <- showInputBox ;;
  ret raw.

Definition label_is (label : jsstring) (h : PlainHostItem.t) : bool :=
  match PlainHostItem.label h with
  | LabelString s => strict_eq s label
  | LabelOther => false
  end.

Definition resolveHost (label : jsstring) : M PlainHostItem.t :=
  all <- getHostList ;;
  let hosts := filter (label_is label) all in
  match hosts with
  | [] =>
      throw (NotAvailable (js "Host " ++ label ++ js " is not configured."))
  | first :: _ => ret first
  end.

(** The last [throw] of the source stands behind an [instanceof] test that
    every host item passes; it never runs. *)
Definition resolveAuthority (info : HostInfo.t) : M ResolvedAuthority.t :=
  let host := HostInfo.host info in
  let port := HostInfo.port info in
  match HostInfo.type info with
  | Transient =>
      token <- pickToken ;;
      if js_not token
      then ret {| ResolvedAuthority.host := host;
                  ResolvedAuthority.port := port;
                  ResolvedAuthority.connectionToken := None |}
      else ret {| ResolvedAuthority.host := host;
                  ResolvedAuthority.port := port;
                  ResolvedAuthority.connectionToken := token |}
  | Configured =>
      resolvedHost <- resolveHost host ;;
      match PlainHostItem.connectionToken resolvedHost with
      | TokBool false =>
          ret {| ResolvedAuthority.host := PlainHostItem.host resolvedHost;
                 ResolvedAuthority.port := Some (PlainHostItem.port resolvedHost);
                 ResolvedAuthority.connectionToken := None |}
      | TokBool true =>
          token <- pickToken ;;
          if js_not token
          then throw (Error (js "no token specified"))
          else ret {| ResolvedAuthority.host := PlainHostItem.host resolvedHost;
                      ResolvedAuthority.port :=
                        Some (PlainHostItem.port resolvedHost);
                      ResolvedAuthority.connectionToken := token |}
      | TokString s =>
          ret {| ResolvedAuthority.host := PlainHostItem.host resolvedHost;
                 ResolvedAuthority.port := Some (PlainHostItem.port resolvedHost);
                 ResolvedAuthority.connectionToken := Some s |}
      end
  end.

(** The credential policy of the design, read off the stored token the way
    [resolveAuthority] branches on it. *)
Inductive CredentialPolicy :=
| AlwaysPrompt
| NeverPrompt
| FixedToken (t : jsstring).

Definition credentialPolicy (h : PlainHostItem.t) : CredentialPolicy :=
  match PlainHostItem.connectionToken h with
  | TokBool false => NeverPrompt
  | TokBool true => AlwaysPrompt
  | TokString s => FixedToken s
  end.

(** The handler of [onDidChangeConfiguration] when the hosts setting is
    affected: the new setting is in place and the tree is read again. *)
Definition configurationChanged (value : option (list HostConfig.t)) : M unit :=
  fun w =>
    readTree
      {| configuration := value; remotesTree := remotesTree w;
         noHosts := noHosts w; fired := fired w;
         inputBox := inputBox w; shown := shown w |}.

(** The provider just constructed. *)
Definition initial (value : option (list HostConfig.t))
    (answers : nat -> option jsstring) : world :=
  {| configuration := value; remotesTree := None; noHosts := None;
     fired := 0; inputBox := answers; shown := 0 |}.

(** The worlds the extension can be in between calls that run one after
    another, each to its end before the next begins: it starts with no
    tree, and then settings change, the tree view asks for children, and
    authorities are resolved.  The worlds inside a call that awaits are the
    matter of [InFlight] below. *)
Inductive reachable : world -> Prop :=
| reach_initial value answers : reachable (initial value answers)
| reach_configuration w value r w' :
    reachable w -> configurationChanged value w = (r, w') -> reachable w'
| reach_children w element r w' :
    reachable w -> getChildren element w = (r, w') -> reachable w'
| reach_resolve w info r w' :
    reachable w -> resolveAuthority info w = (r, w') -> reachable w'.

End Provider.

(** ** The command [remote-oss.connectToTemporaryHost] *)

Module Extension.

(** What the handler does with the answer of its input box. *)
Inductive effect :=
| showErrorMessage (msg : jsstring)
| openFolder (uri : jsstring).

(** The longest prefix without [stop], and the rest: the part a negated
    character class with [+] matches when [stop] must follow. *)
Fixpoint span_until (stop : Z) (s : jsstring) : jsstring * jsstring :=
  match s with
  | [] => ([], [])
  | c :: s' =>
      if c =? stop then ([], s)
      else let (a, r) := span_until stop s' in (c :: a, r)
  end.

(** [\d+] up to the end of the input. *)
Definition all_digits (s : jsstring) : bool :=
  negb (falsy s) && forallb JSON.is_digit s.

(** The first alternative, [^\[([^\]]+)\]:(\d+)$]: groups 1 and 2. *)
Definition match_bracketed (s : jsstring) : option (jsstring * jsstring) :=
  match s with
  | c :: s1 =>
      if c =? 91 then
        let (h, s2) := span_until 93 s1 in
        match h, s2 with
        | _ :: _, _ :: c2 :: d =>
            if (c2 =? 58) && all_digits d then Some (h, d) else None
        | _, _ => None
        end
      else None
  | [] => None
  end.

(** The second alternative, [^([^:]+):(\d+)$]: groups 3 and 4. *)
Definition match_plain (s : jsstring) : option (jsstring * jsstring) :=
  let (h, s1) := span_until 58 s in
  match h, s1 with
  | _ :: _, _ :: d => if all_digits d then Some (h, d) else None
  | _, _ => None
  end.

(** [host.match(...)]: the groups [match[1]] to [match[4]]; the second
    alternative is tried when the first fails. *)
Definition match_host (s : jsstring)
  : option (option jsstring * option jsstring
            * option jsstring * option jsstring) :=
  match match_bracketed s with
  | Some (h, d) => Some (Some h, Some d, None, None)
  | None =>
      match match_plain s with
      | Some (h, d) => Some (None, None, Some h, Some d)
      | None => None
      end
  end.

(** [a || b] on groups. *)
Definition or_group (a b : option jsstring) : option jsstring :=
  if js_not a then b else a.

(** [parseInt(port)] on a run of digits: the number they spell, which a
    JavaScript number holds exactly up to 2^53 - 1. *)
Definition parseInt (digits : jsstring) : Z :=
  JSON.digits_value (map (fun c => c - 48) digits).

Definition invalid_format : jsstring :=
  js "Invalid host format. Should be 'hostname:port' or '[ipv6]:port'.".

(** The handler, as a function of the answer of its input box.  A match
    always fills one pair of groups, so the last case never runs. *)
Definition connectToTemporaryHost (host : option jsstring) : effect :=
  match host with
  | None => showErrorMessage (js "Host should not be empty.")
  | Some host =>
      if falsy host then showErrorMessage (js "Host should not be empty.")
      else
        match match_host host with
        | None => showErrorMessage invalid_format
        | Some (m1, m2, m3, m4) =>
            match or_group m1 m3, or_group m2 m4 with
            | Some hostname, Some port =>
                let authority :=
                  Codec.encode_remote_host
                    {| HostInfo.type := Transient;
                       HostInfo.host := hostname;
                       HostInfo.port := Some (parseInt port) |} in
                openFolder (js "vscode-remote://" ++ authority ++ js "/")
            | _, _ => showErrorMessage invalid_format
            end
        end
  end.

End Extension.

(** ** The host picker ([RemotesDataProvider.pickHostLabel]) *)

Module Picker.

Import Provider.

(** The template literal on a label: a string stands for itself; [other]
    is the text of a label that is not a string. *)
Definition template (other : jsstring) (l : label_value) : jsstring :=
  match l with
  | LabelString s => s
  | LabelOther => other
  end.

(** [quickPick] is the user in front of the quick pick: from the labels
    offered, [None] when the pick is hidden and [Some selected] when it is
    accepted with the items [selected]. *)
Definition pickHostLabel (other : jsstring)
    (quickPick : list jsstring -> option (list jsstring))
  : M (option jsstring) :=
  hosts <- getHostList ;;
  let items := map (fun h => template other (PlainHostItem.label h)) hosts in
  match quickPick items with
  | None => ret None
  | Some [] => ret None
  | Some (label :: _) =>
      ret (Some (Codec.encode_remote_host
                   {| HostInfo.type := Configured; HostInfo.host := label;
                      HostInfo.port := None |}))
  end.

End Picker.

(** ** The resolver and the folder command of [activate] *)

Module Session.

(** The argument of [registerResourceLabelFormatter]. *)
Record ResourceLabelFormatter := {
  scheme : jsstring;
  authority : jsstring;
  label : jsstring;
  separator : jsstring;
  tildify : bool;
  normalizeDriveLetter : bool;
  workspaceSuffix : jsstring
}.

(** What [activate]'s closures read and write: the provider, the label
    formatters pushed to [context.subscriptions], and the context key
    [forwardedPortsViewEnabled]. *)
Record session := {
  provider : Provider.world;
  formatters : list ResourceLabelFormatter;
  forwardedPortsViewEnabled : bool
}.

Definition S (A : Type) : Type := session -> completion A * session.

Definition ret {A} (a : A) : S A := fun ss => (Return a, ss).

Definition bind {A B} (c : S A) (k : A -> S B) : S B :=
  fun ss =>
    match c ss with
    | (Return a, ss') => k a ss'
    | (Throw e, ss') => (Throw e, ss')
    end.

Definition throw {A} (e : exn) : S A := fun ss => (Throw e, ss).

Notation "x <- c ;; k" := (bind c (fun x => k))
  (at level 61, c at next level, right associativity).
Notation "c ;;; k" := (bind c (fun _ => k))
  (at level 61, right associativity).

(** A method of the provider, run on the session's provider. *)
Definition lift {A} (c : Provider.M A) : S A :=
  fun ss =>
    let '(r, w) := c (provider ss) in
    (r, {| provider := w; formatters := formatters ss;
           forwardedPortsViewEnabled := forwardedPortsViewEnabled ss |}).

Definition registerResourceLabelFormatter (f : ResourceLabelFormatter)
  : S unit :=
  fun ss =>
    (Return tt,
     {| provider := provider ss; formatters := formatters ss ++ [f];
        forwardedPortsViewEnabled := forwardedPortsViewEnabled ss |}).

(** [commands.executeCommand("setContext", "forwardedPortsViewEnabled",
    enabled)]. *)
Definition setForwardedPortsViewEnabled (enabled : bool) : S unit :=
  fun ss =>
    (Return tt,
     {| provider := provider ss; formatters := formatters ss;
        forwardedPortsViewEnabled := enabled |}).

Definition formatter_of (host : jsstring) : ResourceLabelFormatter :=
  {| scheme := js "vscode-remote"; authority := js "remote-oss+*";
     label := js "${path}"; separator := js "/"; tildify := true;
     normalizeDriveLetter := false; workspaceSuffix := host |}.

(** [doResolve]; the lines written to the output channel and the progress
    notification around the call are left out. *)
Definition doResolve (label : HostInfo.t) : S ResolvedAuthority.t :=
  authority <- lift (Provider.resolveAuthority label) ;;
  registerResourceLabelFormatter (formatter_of (HostInfo.host label)) ;;;
  setForwardedPortsViewEnabled true ;;;
  ret authority.

(** [if (v)] on a value that [JSON.parse] returned. *)
Definition truthy (v : JSON.json) : bool :=
  match v with
  | JSON.JNull => false
  | JSON.JBool b => b
  | JSON.JNumber m _ => negb (m =? 0)
  | JSON.JString s => negb (falsy s)
  | JSON.JArray _ => true
  | JSON.JObject _ => true
  end.

(** [o[k]] on an object that [JSON.parse] returned. *)
Fixpoint member (k : jsstring) (ms : list (jsstring * JSON.json))
  : option JSON.json :=
  match ms with
  | [] => None
  | (k', v) :: ms' => if strict_eq k' k then Some v else member k ms'
  end.

(** The value as a [HostInfo], when it is one: an object whose [type] is
    one of the two names, whose [host] is a string and whose [port] is
    absent or an integer literal. *)
Definition as_HostInfo (v : JSON.json) : option HostInfo.t :=
  match v with
  | JSON.JObject ms =>
      match member (js "type") ms, member (js "host") ms with
      | Some (JSON.JString t), Some (JSON.JString h) =>
          let type :=
            if strict_eq t (js "transient") then Some Transient
            else if strict_eq t (js "configured") then Some Configured
            else None in
          let port :=
            match member (js "port") ms with
            | None => Some None
            | Some (JSON.JNumber p e) => if e =? 0 then Some (Some p) else None
            | Some _ => None
            end in
          match type, port with
          | Some type, Some port =>
              Some {| HostInfo.type := type; HostInfo.host := h;
                      HostInfo.port := port |}
          | _, _ => None
          end
      | _, _ => None
      end
  | _ => None
  end.

(** [resolve(authority)] of the registered resolver.  The source types what
    [decode_remote_host] returns as [HostInfo]; the result is [None] when
    the decoded value is truthy and not of that type, a run the typed
    source does not describe. *)
Definition resolve (authority : jsstring)
  : option (S ResolvedAuthority.t) :=
  match Codec.decode_remote_host authority with
  | Throw e => Some (throw e)
  | Return None => Some (throw (NotAvailable (js "Invalid")))
  | Return (Some hostInfo) =>
      if truthy hostInfo then option_map doResolve (as_HostInfo hostInfo)
      else Some (throw (NotAvailable (js "Invalid")))
  end.

(** The command [remote-oss.openFolderInCurrentWindow]: the URI handed to
    [vscode.openFolder], if any. *)
Definition openFolderInCurrentWindow (folder : option FolderItem.t)
  : option jsstring :=
  match folder with
  | Some folder =>
      let encoded :=
        Codec.encode_remote_host
          {| HostInfo.type := Configured;
             HostInfo.host := FolderItem.host folder;
             HostInfo.port := None |} in
      Some (js "vscode-remote://" ++ encoded ++ FolderItem.path folder)
  | None => None
  end.

End Session.

(** ** Calls in flight *)

(** An [async] method runs without interruption from one [await] to the
    next.  [readTree] awaits once, [setNoHostsContext], before it stores
    the tree; [getChildren] awaits [readTree] when it finds no tree.  Here
    the two methods are cut at that [await]. *)

Module InFlight.

Import Provider.

(** [readTree] up to its [await]: the tree is computed from the settings
    and the context key is set; the tree is not stored yet. *)
Definition readTree_begin : M (list TreeItem) :=
  value <- getConfiguration ;;
  let '(tree, numberOfHosts) := build_tree value in
  setNoHostsContext (Nat.eqb numberOfHosts 0) ;;;
  ret tree.

(** [readTree] after its [await]. *)
Definition readTree_end (tree : list TreeItem) : M unit :=
  set_remotesTree tree ;;;
  fire_onDidChangeTreeData.

(** [getChildren] after its test of [this.remotesTree]. *)
Definition getChildren_answer (element : option TreeItem)
  : M (list TreeItem) :=
  match element with
  | Some (Host h) => ret (map Folder (PlainHostItem.folders h))
  | Some (Kind k) => ret (map Host (KindItem.hosts k))
  | Some (Folder _) => ret []
  | None =>
      tree <- get_remotesTree ;;
      match tree with
      | Some tree => ret tree
      | None => ret []
      end
  end.

(** A call of [getChildren] that awaits the [readTree] it began, which
    holds [tree]. *)
Record awaiting := {
  element : option TreeItem;
  tree : list TreeItem
}.

(** [getChildren] up to its [await]: with a tree stored there is none and
    the call runs to its end; without one it begins [readTree]. *)
Definition getChildren_call (element : option TreeItem)
  : world -> (completion (list TreeItem) + awaiting) * world :=
  fun w =>
    match remotesTree w with
    | Some _ => let '(r, w') := getChildren_answer element w in (inl r, w')
    | None =>
        match readTree_begin w with
        | (Return tree, w') =>
            (inr {| element := element; tree := tree |}, w')
        | (Throw e, w') => (inl (Throw e), w')
        end
    end.

(** The rest of the call, once its [readTree] goes on. *)
Definition getChildren_resume (a : awaiting) : M (list TreeItem) :=
  readTree_end (tree a) ;;;
  getChildren_answer (element a).

(** The handler of [onDidChangeConfiguration] up to the [await] of its
    [readTree]: the new setting is in place, the tree is the old one. *)
Definition configurationChanged_begin (value : option (list HostConfig.t))
  : M (list TreeItem) :=
  fun w =>
    readTree_begin
      {| configuration := value; remotesTree := remotesTree w;
         noHosts := noHosts w; fired := fired w;
         inputBox := inputBox w; shown := shown w |}.

End InFlight.

(** * Properties *)

Import Provider Extension.

(** ** Vocabulary *)

(** *** Text *)

Definition is_ascii (c : Z) : bool := in_range 0 127 c.

(** The code unit [c] and the first one of [s] are a surrogate pair. *)
Definition starts_pair (c : Z) (s : jsstring) : bool :=
  is_high_surrogate c
  && match s with d :: _ => is_low_surrogate d | [] => false end.

(** The characters of a run of decimal digits. *)
Definition digit_chars (ds : list Z) : jsstring := map (fun d => 48 + d) ds.
Definition is_digit_value (d : Z) : bool := in_range 0 9 d.

(** The range of code units that base64 text stays in. *)
Definition b64_text (c : Z) : bool := in_range 43 122 c.

(** [s] carries the marker, first at the end of [a], and [b] follows it. *)
Definition first_marker (a b s : jsstring) : Prop :=
  s = a ++ Codec.marker ++ b
  /\ forall a' b', s = a' ++ Codec.marker ++ b' ->
                   (List.length a <= List.length a')%nat.

(** *** The registry *)

Definition is_manual (c : HostConfig.t) : bool :=
  match HostConfig.type c with Manual => true | OtherKind => false end.

(** The hosts a tree holds, in the order [getHostList] meets them. *)
Definition hosts_of (tree : list TreeItem) : list PlainHostItem.t :=
  flat_map (fun item =>
              match item with
              | Kind k => KindItem.hosts k
              | Host h => [h]
              | Folder _ => []
              end) tree.

(** The hosts built from a list of records. *)
Definition registry (hosts : list HostConfig.t) : list PlainHostItem.t :=
  map host_item (filter is_manual hosts).

(** [c] is the first record of the supported kind that carries the name. *)
Definition first_named (label : jsstring) (hosts : list HostConfig.t)
    (c : HostConfig.t) : Prop :=
  exists pre post,
    filter is_manual hosts = pre ++ c :: post
    /\ HostConfig.name c = LabelString label
    /\ forall x, In x pre -> HostConfig.name x <> LabelString label.

(** *** Worlds *)

(** The world [readTree] leaves. *)
Definition rebuilt (w : world) : world :=
  let '(tree, numberOfHosts) := build_tree (configuration w) in
  {| configuration := configuration w; remotesTree := Some tree;
     noHosts := Some (Nat.eqb numberOfHosts 0); fired := S (fired w);
     inputBox := inputBox w; shown := shown w |}.

(** The world in which the tree is there: [getChildren] reads it first
    when it is missing. *)
Definition loaded (w : world) : world :=
  match remotesTree w with
  | Some _ => w
  | None => rebuilt w
  end.

Definition tree_of (w : world) : list TreeItem :=
  match remotesTree (loaded w) with
  | Some tree => tree
  | None => []
  end.

(** The world after the settings changed to [value]. *)
Definition changed (value : option (list HostConfig.t)) (w : world) : world :=
  rebuilt {| configuration := value; remotesTree := remotesTree w;
             noHosts := noHosts w; fired := fired w;
             inputBox := inputBox w; shown := shown w |}.

(** The world after one input box. *)
Definition prompted (w : world) : world := snd (showInputBox w).

(** The tree of the world, if any, came out of [readTree]. *)
Definition built (w : world) : Prop :=
  match remotesTree w with
  | Some tree => exists value, tree = fst (build_tree value)
  | None => True
  end.

(** *** Results *)

(** What [getChildren] answers once the tree is there. *)
Definition children (element : option TreeItem) (tree : list TreeItem)
  : list TreeItem :=
  match element with
  | Some (Host h) => map Folder (PlainHostItem.folders h)
  | Some (Kind k) => map Host (KindItem.hosts k)
  | Some (Folder _) => []
  | None => tree
  end.

Definition not_configured (label : jsstring) : exn :=
  NotAvailable (js "Host " ++ label ++ js " is not configured.").

(** What [resolveAuthority] does once the host item is known, by the
    item's policy. *)
Definition authority_of (h : PlainHostItem.t) (w : world)
  : completion ResolvedAuthority.t * world :=
  match credentialPolicy h with
  | NeverPrompt =>
      (Return {| ResolvedAuthority.host := PlainHostItem.host h;
                 ResolvedAuthority.port := Some (PlainHostItem.port h);
                 ResolvedAuthority.connectionToken := None |}, w)
  | FixedToken t =>
      (Return {| ResolvedAuthority.host := PlainHostItem.host h;
                 ResolvedAuthority.port := Some (PlainHostItem.port h);
                 ResolvedAuthority.connectionToken := Some t |}, w)
  | AlwaysPrompt =>
      let answer := inputBox w (shown w) in
      (if js_not answer then Throw (Error (js "no token specified"))
       else Return {| ResolvedAuthority.host := PlainHostItem.host h;
                      ResolvedAuthority.port := Some (PlainHostItem.port h);
                      ResolvedAuthority.connectionToken := answer |},
       prompted w)
  end.

(** *** The transient-host input *)

(** A port as it is typed: a non-empty run of the decimal digits [0] to
    [9]. *)
Definition decimal_digit (c : Z) : Prop := 48 <= c <= 57.

Definition port_text (d : jsstring) : Prop :=
  d <> [] /\ Forall decimal_digit d.

(** The number a run of decimal digits spells: each digit counts for its
    power of ten. *)
Fixpoint port_number (d : jsstring) : Z :=
  match d with
  | [] => 0
  | c :: d' => (c - 48) * 10 ^ Z.of_nat (List.length d') + port_number d'
  end.

(** The two shapes an input can have: a bracketed text and a port, or a
    text and a port, where the bracketed text is a non-empty run without a
    closing bracket and the other one a non-empty run without a colon. *)
Definition bracketed_form (s h d : jsstring) : Prop :=
  s = [91] ++ h ++ [93; 58] ++ d
  /\ h <> [] /\ ~ In 93 h /\ port_text d.

Definition plain_form (s h d : jsstring) : Prop :=
  s = h ++ [58] ++ d /\ h <> [] /\ ~ In 58 h /\ port_text d.

(** What the design means by its two forms.  A hostname (RFC 1123) is made
    of letters, digits, hyphens and dots; an IPv6 literal (RFC 4291, with
    the zone of RFC 6874) of hexadecimal digits, colons, dots and a
    percent sign. *)
Definition hostname_char (c : Z) : bool :=
  in_range 97 122 c || in_range 65 90 c || in_range 48 57 c
  || (c =? 45) || (c =? 46).

Definition ipv6_char (c : Z) : bool :=
  in_range 48 57 c || in_range 97 102 c || in_range 65 70 c
  || (c =? 58) || (c =? 46) || (c =? 37).

Definition is_hostname (h : jsstring) : bool :=
  negb (falsy h) && forallb hostname_char h.

Definition is_ipv6_literal_text (h : jsstring) : bool :=
  negb (falsy h) && forallb ipv6_char h.

(** An input of one of the design's two forms. *)
Definition design_form (s : jsstring) : Prop :=
  exists h d,
    port_text d
    /\ ((s = h ++ [58] ++ d /\ is_hostname h = true)
        \/ (s = [91] ++ h ++ [93; 58] ++ d
            /\ is_ipv6_literal_text h = true)).

(** The folder the command opens for a host and a port. *)
Definition transient_uri (hostname : jsstring) (port : Z) : jsstring :=
  js "vscode-remote://"
    ++ Codec.encode_remote_host
         {| HostInfo.type := Transient; HostInfo.host := hostname;
            HostInfo.port := Some port |}
    ++ js "/".

(** *** Sample settings and users *)

Definition sample_host (name host : string) (port : Z)
    (token : option token_value) : HostConfig.t :=
  {| HostConfig.type := Manual; HostConfig.name := LabelString (js name);
     HostConfig.host := js host; HostConfig.port := port;
     HostConfig.connectionToken := token; HostConfig.folders := None |}.

(** Two records with the one name [a]. *)
Definition duplicate_hosts : list HostConfig.t :=
  [sample_host "a" "1.2.3.4" 22 (Some (TokBool false));
   sample_host "a" "5.6.7.8" 2222 (Some (TokString (js "secret")))].

(** The records of the design's examples: token absent, [false], a secret,
    and the empty string. *)
Definition prompting_host : HostConfig.t := sample_host "a" "1.2.3.4" 22 None.

Definition open_host : HostConfig.t :=
  sample_host "a" "1.2.3.4" 22 (Some (TokBool false)).

Definition secret_host : HostConfig.t :=
  sample_host "a" "1.2.3.4" 22 (Some (TokString (js "secret"))).

Definition empty_token_host : HostConfig.t :=
  sample_host "a" "1.2.3.4" 22 (Some (TokString [])).

(** A record with one bare folder and one named folder. *)
Definition host_with_folders : HostConfig.t :=
  {| HostConfig.type := Manual; HostConfig.name := LabelString (js "a");
     HostConfig.host := js "1.2.3.4"; HostConfig.port := 22;
     HostConfig.connectionToken := None;
     HostConfig.folders :=
       Some [FolderPath (js "/srv"); FolderEntry (js "www") (js "/var/www")] |}.

Definition configured (name : string) : HostInfo.t :=
  {| HostInfo.type := Configured; HostInfo.host := js name;
     HostInfo.port := None |}.

Definition example_com : HostInfo.t :=
  {| HostInfo.type := Transient; HostInfo.host := js "example.com";
     HostInfo.port := Some 22 |}.

(** The user who dismisses every input box, the one who accepts it empty,
    and the one who types [tok]. *)
Definition no_answer : nat -> option jsstring := fun _ => None.
Definition empty_answer : nat -> option jsstring := fun _ => Some [].
Definition tok_answer : nat -> option jsstring := fun _ => Some (js "tok").

Definition after_duplicates : world :=
  changed (Some duplicate_hosts) (initial None no_answer).

(** *** The picker, the session and the folder command *)

(** A character of base64 text: a letter, a digit, [+], [/] or [=]. *)
Definition is_base64_char (c : Z) : bool :=
  in_range 65 90 c || in_range 97 122 c || in_range 48 57 c
  || (c =? 43) || (c =? 47) || (c =? 61).

(** The folder item of one entry of [folders] under the host name. *)
Definition folder_item (hostName : jsstring) (folder : FolderConfig)
  : FolderItem.t :=
  match folder with
  | FolderPath path =>
      {| FolderItem.label := path; FolderItem.host := hostName;
         FolderItem.path := path |}
  | FolderEntry name path =>
      {| FolderItem.label := name; FolderItem.host := hostName;
         FolderItem.path := path |}
  end.

(** The records of the supported kind in the settings of a world. *)
Definition supported (w : world) : list HostConfig.t :=
  match configuration w with
  | Some hosts => filter is_manual hosts
  | None => []
  end.

(** A session around a provider, before any resolution. *)
Definition fresh_session (w : world) : Session.session :=
  {| Session.provider := w; Session.formatters := [];
     Session.forwardedPortsViewEnabled := false |}.

(** The user who accepts the first label offered. *)
Definition pick_first (items : list jsstring) : option (list jsstring) :=
  Some (firstn 1 items).

(** A configured reference whose token holds a slash. *)
Definition question_mark : HostInfo.t :=
  {| HostInfo.type := Configured; HostInfo.host := js "?";
     HostInfo.port := None |}.

Definition after_folders : world :=
  changed (Some [host_with_folders]) (initial None no_answer).

(** The tree of the world, if any, is the one of its settings. *)
Definition synced (w : world) : Prop :=
  match remotesTree w with
  | Some tree => tree = fst (build_tree (configuration w))
  | None => True
  end.

(** The labels the quick pick offers for the settings of the world. *)
Definition offered (other : jsstring) (w : world) : list jsstring :=
  map (fun c => Picker.template other (HostConfig.name c)) (supported w).

(** The quick pick hands back items it was given. *)
Definition picks_offered (quickPick : list jsstring -> option (list jsstring))
  : Prop :=
  forall items selected,
    quickPick items = Some selected -> incl selected items.

(** Every supported record of the settings has a string as its name. *)
Definition named (w : world) : Prop :=
  forall c, In c (supported w) ->
            exists s, HostConfig.name c = LabelString s /\ is_string s = true.

(** A reference that the model prints as the code does: the host is a
    string and the port, if there is one, a safe integer. *)
Definition representable (r : HostInfo.t) : bool :=
  is_string (HostInfo.host r)
  && match HostInfo.port r with
     | Some p => in_range (- (2 ^ 53 - 1)) (2 ^ 53 - 1) p
     | None => true
     end.

(** The authority of a URI (RFC 3986, section 3.2): what follows the double
    slash, up to the next slash, question mark or number sign, or to the
    end. *)
Definition ends_authority (c : Z) : bool :=
  (c =? 47) || (c =? 63) || (c =? 35).

Fixpoint authority_run (s : jsstring) : jsstring :=
  match s with
  | [] => []
  | c :: s' => if ends_authority c then [] else c :: authority_run s'
  end.

Definition uri_authority (uri : jsstring) : option jsstring :=
  option_map authority_run (strip_prefix (js "vscode-remote://") uri).

(** The text is empty or begins with a character that ends an authority. *)
Definition starts_delimited (path : jsstring) : bool :=
  match path with
  | [] => true
  | c :: _ => ends_authority c
  end.

(** [found] is the first host of the list that carries the label. *)
Definition first_with_label (label : jsstring)
    (hosts : list PlainHostItem.t) (found : PlainHostItem.t) : Prop :=
  exists pre post,
    hosts = pre ++ found :: post
    /\ PlainHostItem.label found = LabelString label
    /\ forall x, In x pre -> PlainHostItem.label x <> LabelString label.

(** The reference the transient-host command encodes. *)
Definition transient (hostname : jsstring) (port : Z) : HostInfo.t :=
  {| HostInfo.type := Transient; HostInfo.host := hostname;
     HostInfo.port := Some port |}.

(** The reference the picker and the folder command encode. *)
Definition configured_host (label : jsstring) : HostInfo.t :=
  {| HostInfo.type := Configured; HostInfo.host := label;
     HostInfo.port := None |}.

(** ** Tactics and hints *)

Create HintDb wf.
Create HintDb built.

(** Goals with divisions and remainders by constants. *)
Ltac zdm := Z.to_euclidean_division_equations; lia.

(** Boolean tests among the hypotheses, as arithmetic facts. *)
Ltac bool_hyps :=
  unfold is_code_unit, is_byte, is_high_surrogate, is_low_surrogate in *;
  repeat match goal with
         | H : in_range _ _ _ = true |- _ =>
             unfold in_range in H; apply andb_true_iff in H;
             rewrite !Z.leb_le in H
         | H : in_range _ _ _ = false |- _ =>
             unfold in_range in H; apply andb_false_iff in H;
             rewrite !Z.leb_gt in H
         | H : (_ <? _) = true |- _ => apply Z.ltb_lt in H
         | H : (_ <? _) = false |- _ => apply Z.ltb_ge in H
         | H : (_ =? _) = true |- _ => apply Z.eqb_eq in H
         | H : (_ =? _) = false |- _ => apply Z.eqb_neq in H
         end.

(** A boolean test decided by linear arithmetic. *)
Ltac bool_lin :=
  bool_hyps;
  match goal with
  | |- in_range _ _ _ = true =>
      unfold in_range; apply andb_true_iff; rewrite !Z.leb_le
  | |- in_range _ _ _ = false =>
      unfold in_range; apply andb_false_iff; rewrite !Z.leb_gt
  | |- (_ <? _) = true => apply Z.ltb_lt
  | |- (_ <? _) = false => apply Z.ltb_ge
  | |- (_ =? _) = true => apply Z.eqb_eq
  | |- (_ =? _) = false => apply Z.eqb_neq
  | |- (_ <=? _) = true => apply Z.leb_le
  | |- (_ <=? _) = false => apply Z.leb_gt
  end;
  lia.

(** The test of the outermost conditional of the goal has the value [v]. *)
Ltac test_is v :=
  match goal with
  | |- context [if ?b then _ else _] =>
      replace b with v by (symmetry; bool_lin)
  end.

(** ** Arithmetic *)

Section Arithmetic.

Lemma in_range_true lo hi c : in_range lo hi c = true <-> lo <= c <= hi.
Proof. unfold in_range. rewrite andb_true_iff, !Z.leb_le. tauto. Qed.

Lemma in_range_false lo hi c : in_range lo hi c = false <-> c < lo \/ hi < c.
Proof.
  unfold in_range. rewrite andb_false_iff, !Z.leb_gt. tauto.
Qed.

Lemma split_64 c :
  exists a d, c / 64 = a /\ c mod 64 = d /\ c = a * 64 + d /\ 0 <= d < 64.
Proof. exists (c / 64), (c mod 64). zdm. Qed.

Lemma split_4096 c :
  exists a b d,
    c / 4096 = a /\ (c / 64) mod 64 = b /\ c mod 64 = d
    /\ c = a * 4096 + b * 64 + d /\ 0 <= b < 64 /\ 0 <= d < 64.
Proof. exists (c / 4096), ((c / 64) mod 64), (c mod 64). zdm. Qed.

Lemma split_262144 c :
  exists a b e d,
    c / 262144 = a /\ (c / 4096) mod 64 = b /\ (c / 64) mod 64 = e
    /\ c mod 64 = d
    /\ c = a * 262144 + b * 4096 + e * 64 + d
    /\ 0 <= b < 64 /\ 0 <= e < 64 /\ 0 <= d < 64.
Proof.
  exists (c / 262144), ((c / 4096) mod 64), ((c / 64) mod 64), (c mod 64). zdm.
Qed.

Lemma byte_split b :
  is_byte b = true ->
  0 <= b / 4 < 64 /\ 0 <= b mod 4 < 4 /\ 0 <= b / 16 < 16 /\ 0 <= b mod 16 < 16
  /\ 0 <= b / 64 < 4 /\ 0 <= b mod 64 < 64.
Proof. intros H. bool_hyps. zdm. Qed.

Lemma hex_split c :
  is_code_unit c = true ->
  exists a b d e,
    c / 4096 = a /\ c / 256 mod 16 = b /\ c / 16 mod 16 = d /\ c mod 16 = e
    /\ c = ((a * 16 + b) * 16 + d) * 16 + e
    /\ 0 <= a < 16 /\ 0 <= b < 16 /\ 0 <= d < 16 /\ 0 <= e < 16.
Proof.
  intros H. bool_hyps.
  exists (c / 4096), (c / 256 mod 16), (c / 16 mod 16), (c mod 16). zdm.
Qed.

End Arithmetic.

(** ** UTF-8 *)

Section UTF8.

Lemma toString_utf8_code_point c Y :
  0 <= c < 0x110000 -> in_range 0xD800 0xDFFF c = false ->
  Buffer.toString_utf8 (Buffer.utf8_of_code_point c ++ Y)
  = Buffer.utf16_of_code_point c ++ Buffer.toString_utf8 Y.
Proof.
  intros Hc Hs. unfold Buffer.utf8_of_code_point.
  destruct (c <? 0x80) eqn:E1.
  { unfold Buffer.utf16_of_code_point. test_is true.
    cbn [app Buffer.toString_utf8]. rewrite E1. reflexivity. }
  destruct (c <? 0x800) eqn:E2.
  { unfold Buffer.utf16_of_code_point. test_is true.
    destruct (split_64 c) as (a & d & -> & -> & ? & ?).
    cbn [app Buffer.toString_utf8]. unfold Buffer.cont.
    test_is false. do 2 test_is true. f_equal. lia. }
  destruct (c <? 0x10000) eqn:E3.
  { unfold Buffer.utf16_of_code_point. rewrite E3.
    destruct (split_4096 c) as (a & b & d & -> & -> & -> & ? & ? & ?).
    cbn [app Buffer.toString_utf8]. unfold Buffer.cont.
    do 2 test_is false. test_is true.
    destruct (224 + a =? 224) eqn:?, (224 + a =? 237) eqn:?;
      do 2 test_is true; f_equal; lia. }
  destruct (split_262144 c)
    as (a & b & e & d & -> & -> & -> & -> & ? & ? & ? & ?).
  cbn [app Buffer.toString_utf8]. unfold Buffer.cont.
  do 3 test_is false. test_is true.
  destruct (240 + a =? 240) eqn:?, (240 + a =? 244) eqn:?;
    do 3 test_is true; do 2 f_equal; lia.
Qed.

Lemma utf16_of_bmp c : c < 0x10000 -> Buffer.utf16_of_code_point c = [c].
Proof. intros. unfold Buffer.utf16_of_code_point. test_is true. reflexivity. Qed.

Lemma utf16_of_pair c d :
  is_high_surrogate c = true -> is_low_surrogate d = true ->
  Buffer.utf16_of_code_point (Buffer.code_point_of_pair c d) = [c; d].
Proof.
  intros Hc Hd. unfold Buffer.utf16_of_code_point, Buffer.code_point_of_pair.
  test_is false. bool_hyps. f_equal; [|f_equal]; zdm.
Qed.

(** UTF-8 loses nothing on a string without unpaired surrogates. *)
Lemma toString_from_utf8 s Y :
  WellFormed s ->
  Buffer.toString_utf8 (Buffer.from_utf8 s ++ Y) = s ++ Buffer.toString_utf8 Y.
Proof.
  induction 1 as [|c s Hc Hs _ IH|c d s Hc Hd _ IH]; [reflexivity| |].
  - cbn [Buffer.from_utf8]. do 2 test_is false.
    rewrite <- app_assoc, toString_utf8_code_point, IH
      by first [assumption | bool_hyps; lia].
    rewrite utf16_of_bmp by (bool_hyps; lia). reflexivity.
  - cbn [Buffer.from_utf8]. rewrite Hc, Hd.
    rewrite <- app_assoc, toString_utf8_code_point, IH, utf16_of_pair; auto.
    + unfold Buffer.code_point_of_pair. bool_hyps. lia.
    + unfold Buffer.code_point_of_pair. bool_lin.
Qed.

Lemma WellFormed_app a b : WellFormed a -> WellFormed b -> WellFormed (a ++ b).
Proof. induction 1; cbn [app]; auto using WellFormed. Qed.

Lemma WellFormed_ascii s : forallb is_ascii s = true -> WellFormed s.
Proof.
  induction s as [|c s IH]; cbn [forallb]; [constructor|].
  rewrite andb_true_iff. intros [Hc Hs]. unfold is_ascii in Hc.
  apply wf_unit; auto; bool_lin.
Qed.

Lemma is_string_WellFormed s : WellFormed s -> is_string s = true.
Proof.
  unfold is_string.
  induction 1; cbn [forallb]; rewrite ?IHWellFormed, ?andb_true_r; auto.
  apply andb_true_iff. split; bool_lin.
Qed.

Lemma utf8_of_code_point_bytes c :
  0 <= c < 0x110000 -> forallb is_byte (Buffer.utf8_of_code_point c) = true.
Proof.
  intros Hc. unfold Buffer.utf8_of_code_point.
  destruct (c <? 0x80) eqn:E1; [|destruct (c <? 0x800) eqn:E2;
    [|destruct (c <? 0x10000) eqn:E3]];
    cbn [forallb]; rewrite ?andb_true_iff; repeat split;
    bool_hyps; apply in_range_true; zdm.
Qed.

Lemma from_utf8_bytes s :
  is_string s = true -> forallb is_byte (Buffer.from_utf8 s) = true.
Proof.
  unfold is_string.
  assert (forall n s, (List.length s <= n)%nat -> forallb is_code_unit s = true ->
                      forallb is_byte (Buffer.from_utf8 s) = true) as H.
  { induction n as [|n IH]; intros [|c t] Hn Hs; cbn [List.length] in Hn;
      try reflexivity; try lia.
    cbn [forallb] in Hs. apply andb_true_iff in Hs as [Hc Ht].
    cbn [Buffer.from_utf8].
    destruct (is_high_surrogate c) eqn:Eh.
    - destruct t as [|d u]; [reflexivity|].
      cbn [forallb] in Ht. pose proof Ht as Ht'.
      apply andb_true_iff in Ht as [Hd Hu]. cbn [List.length] in Hn.
      destruct (is_low_surrogate d) eqn:El; rewrite forallb_app.
      + rewrite utf8_of_code_point_bytes, IH; auto; try lia.
        unfold Buffer.code_point_of_pair. bool_hyps. lia.
      + rewrite IH; auto. cbn [List.length]. lia.
    - destruct (is_low_surrogate c); rewrite forallb_app, IH; auto; try lia.
      rewrite utf8_of_code_point_bytes; auto. bool_hyps. lia. }
  eauto.
Qed.

End UTF8.

#[local] Hint Constructors WellFormed : wf.
#[local] Hint Resolve WellFormed_app WellFormed_ascii : wf.

(** ** Base64 *)

Section Base64.

Lemma unbase64_b64_char n :
  0 <= n < 64 -> Buffer.unbase64 (Buffer.b64_char n) = Some n.
Proof.
  intros Hn. unfold Buffer.b64_char.
  destruct (n <? 26) eqn:E1; [|destruct (n <? 52) eqn:E2;
    [|destruct (n <? 62) eqn:E3; [|destruct (n =? 62) eqn:E4]]];
    unfold Buffer.unbase64.
  - test_is true. f_equal. lia.
  - test_is false. test_is true. f_equal. lia.
  - do 2 test_is false. test_is true. f_equal. lia.
  - bool_hyps. subst n. reflexivity.
  - bool_hyps. assert (n = 63) as -> by lia. reflexivity.
Qed.

Lemma b64_char_ascii n : 0 <= n < 64 -> 43 <= Buffer.b64_char n <= 122.
Proof.
  intros Hn. unfold Buffer.b64_char.
  destruct (n <? 26) eqn:E1; [|destruct (n <? 52) eqn:E2;
    [|destruct (n <? 62) eqn:E3; [|destruct (n =? 62) eqn:E4]]];
    bool_hyps; lia.
Qed.

Lemma b64_char_not_pad n : 0 <= n < 64 -> (Buffer.b64_char n =? Buffer.pad) = false.
Proof.
  intros Hn. unfold Buffer.b64_char, Buffer.pad.
  destruct (n <? 26) eqn:E1; [|destruct (n <? 52) eqn:E2;
    [|destruct (n <? 62) eqn:E3; [|destruct (n =? 62) eqn:E4]]];
    bool_lin.
Qed.

Lemma low_byte_b64_char n :
  0 <= n < 64 -> Buffer.low_byte (Buffer.b64_char n) = Buffer.b64_char n.
Proof.
  intros Hn. pose proof (b64_char_ascii n Hn).
  unfold Buffer.low_byte. apply Z.mod_small. lia.
Qed.

Lemma sextets_b64_char n s :
  0 <= n < 64 ->
  Buffer.sextets (Buffer.b64_char n :: s) = n :: Buffer.sextets s.
Proof.
  intros Hn. cbn [Buffer.sextets].
  rewrite low_byte_b64_char, b64_char_not_pad, unbase64_b64_char by assumption.
  reflexivity.
Qed.

(** Induction over a list three elements at a time. *)
Lemma list_ind3 {A} (P : list A -> Prop) :
  P [] -> (forall a, P [a]) -> (forall a b, P [a; b]) ->
  (forall a b c r, P r -> P (a :: b :: c :: r)) ->
  forall l, P l.
Proof.
  intros H0 H1 H2 H3 l.
  assert (P l /\ (forall a, P (a :: l)) /\ (forall a b, P (a :: b :: l))) as H;
    [|apply H].
  induction l as [|x l (IH0 & IH1 & IH2)]; auto.
Qed.

Lemma from_base64_toString bs :
  forallb is_byte bs = true ->
  Buffer.from_base64 (Buffer.toString_base64 bs) = bs.
Proof.
  unfold Buffer.from_base64.
  induction bs as [|a|a b|a b c r IH] using list_ind3;
    cbn [forallb]; rewrite ?andb_true_iff; intros H.
  - reflexivity.
  - destruct H as [Ha _]. pose proof (byte_split a Ha).
    cbn [Buffer.toString_base64].
    rewrite !sextets_b64_char by lia. cbn. f_equal. zdm.
  - destruct H as (Ha & Hb & _).
    pose proof (byte_split a Ha). pose proof (byte_split b Hb).
    cbn [Buffer.toString_base64].
    rewrite !sextets_b64_char by lia. cbn. f_equal; [|f_equal]; zdm.
  - destruct H as (Ha & Hb & Hc & Hr).
    pose proof (byte_split a Ha). pose proof (byte_split b Hb).
    pose proof (byte_split c Hc).
    cbn [Buffer.toString_base64 app].
    rewrite !sextets_b64_char by lia.
    cbn [Buffer.bytes_of_sextets app]. rewrite (IH Hr).
    f_equal; [|f_equal; [|f_equal]]; zdm.
Qed.

Lemma toString_base64_text bs :
  forallb is_byte bs = true ->
  forallb b64_text (Buffer.toString_base64 bs) = true.
Proof.
  assert (forall n, 0 <= n < 64 -> b64_text (Buffer.b64_char n) = true) as Hchar.
  { intros n Hn. apply in_range_true, b64_char_ascii, Hn. }
  induction bs as [|a|a b|a b c r IH] using list_ind3;
    cbn [forallb]; rewrite ?andb_true_iff; intros H.
  - reflexivity.
  - destruct H as [Ha _]. pose proof (byte_split a Ha).
    cbn [Buffer.toString_base64 forallb]. rewrite !Hchar by lia. reflexivity.
  - destruct H as (Ha & Hb & _).
    pose proof (byte_split a Ha). pose proof (byte_split b Hb).
    cbn [Buffer.toString_base64 forallb]. rewrite !Hchar by lia. reflexivity.
  - destruct H as (Ha & Hb & Hc & Hr).
    pose proof (byte_split a Ha). pose proof (byte_split b Hb).
    pose proof (byte_split c Hc).
    cbn [Buffer.toString_base64 forallb app]. rewrite !Hchar, (IH Hr) by lia.
    reflexivity.
Qed.

End Base64.

(** ** JSON text *)

Section JSONText.

(** Induction over a string the way [QuoteJSONString] and [Buffer.from] walk
    it: a surrogate pair at a time, or a single code unit that does not
    start a pair. *)
Lemma code_point_ind (P : jsstring -> Prop) :
  P [] ->
  (forall c d s,
      is_high_surrogate c = true -> is_low_surrogate d = true ->
      P s -> P (c :: d :: s)) ->
  (forall c s, starts_pair c s = false -> P s -> P (c :: s)) ->
  forall s, P s.
Proof.
  intros H0 Hpair Hunit s.
  assert (P s /\ forall a, P (a :: s)) as H; [|apply H].
  induction s as [|x s [IH0 IH1]].
  - split; auto. intros a. apply Hunit; auto.
    unfold starts_pair. apply andb_false_r.
  - split; auto. intros a.
    destruct (starts_pair a (x :: s)) eqn:E.
    + apply andb_true_iff in E as [Ea Ex]. auto.
    + auto.
Qed.

Lemma quote_unit_surrogate c :
  in_range 0xD800 0xDFFF c = true -> JSON.quote_unit c = JSON.unicode_escape c.
Proof.
  intros H. unfold JSON.quote_unit. do 7 test_is false.
  rewrite H, orb_true_r. reflexivity.
Qed.

Lemma quote_body_unit c s :
  starts_pair c s = false ->
  JSON.quote_body (c :: s) = JSON.quote_unit c ++ JSON.quote_body s.
Proof.
  unfold starts_pair. intros H. cbn [JSON.quote_body].
  destruct (is_high_surrogate c) eqn:Eh; [|reflexivity].
  cbn [andb] in H. rewrite quote_unit_surrogate by bool_lin.
  destruct s as [|d t]; [symmetry; apply app_nil_r|].
  rewrite H. reflexivity.
Qed.

Lemma quote_body_pair c d s :
  is_high_surrogate c = true -> is_low_surrogate d = true ->
  JSON.quote_body (c :: d :: s) = c :: d :: JSON.quote_body s.
Proof. intros Hc Hd. cbn [JSON.quote_body]. rewrite Hc, Hd. reflexivity. Qed.

Lemma hex_value_digit n :
  0 <= n < 16 -> JSON.hex_value (JSON.hex_digit n) = Some n.
Proof.
  intros Hn. unfold JSON.hex_digit, JSON.hex_value, JSON.is_digit.
  destruct (n <? 10) eqn:E.
  - test_is true. f_equal. lia.
  - test_is false. test_is true. f_equal. lia.
Qed.

Lemma hex_digit_ascii n : 0 <= n < 16 -> is_ascii (JSON.hex_digit n) = true.
Proof.
  intros Hn. unfold JSON.hex_digit, is_ascii.
  destruct (n <? 10) eqn:E; bool_lin.
Qed.

Lemma lex_unicode_escape acc c rest :
  is_code_unit c = true ->
  JSON.lex (JSON.LString acc) (JSON.unicode_escape c ++ rest)
  = JSON.lex (JSON.LString (acc ++ [c])) rest.
Proof.
  intros Hc. unfold JSON.unicode_escape.
  destruct (hex_split c Hc) as (a & b & d & e & -> & -> & -> & -> & Heq & ?).
  cbn [app JSON.lex].
  cbn [Z.eqb Pos.eqb Z.ltb Z.compare Pos.compare Pos.compare_cont].
  rewrite !hex_value_digit by lia. do 4 f_equal. lia.
Qed.

Lemma lex_quote_unit acc c rest :
  is_code_unit c = true ->
  JSON.lex (JSON.LString acc) (JSON.quote_unit c ++ rest)
  = JSON.lex (JSON.LString (acc ++ [c])) rest.
Proof.
  intros Hc. unfold JSON.quote_unit.
  repeat match goal with
         | |- context [if (c =? ?k) then _ else _] =>
             destruct (c =? k) eqn:?;
             [bool_hyps; subst c; reflexivity|]
         end.
  destruct ((c <? 32) || in_range 55296 57343 c) eqn:E.
  - apply lex_unicode_escape, Hc.
  - apply orb_false_iff in E as [E1 E2].
    cbn [app JSON.lex]. do 2 test_is false. rewrite E1. reflexivity.
Qed.

Lemma lex_pair acc c d rest :
  is_high_surrogate c = true -> is_low_surrogate d = true ->
  JSON.lex (JSON.LString acc) (c :: d :: rest)
  = JSON.lex (JSON.LString (acc ++ [c; d])) rest.
Proof.
  intros Hc Hd. cbn [JSON.lex]. do 6 test_is false.
  rewrite <- app_assoc. reflexivity.
Qed.

(** The scanner reads a quoted string back. *)
Lemma lex_quote_body s : forall acc rest,
  is_string s = true ->
  JSON.lex (JSON.LString acc) (JSON.quote_body s ++ 34 :: rest)
  = JSON.emit [JSON.TString (acc ++ s)] (JSON.lex JSON.LStart rest).
Proof.
  unfold is_string.
  induction s as [|c d s Hc Hd IH|c s Hc IH] using code_point_ind;
    intros acc rest Hs.
  - rewrite app_nil_r. reflexivity.
  - cbn [forallb] in Hs. apply andb_true_iff in Hs as [_ Hs].
    apply andb_true_iff in Hs as [_ Hs].
    rewrite quote_body_pair by assumption. cbn [app].
    rewrite lex_pair, IH, <- app_assoc by assumption. reflexivity.
  - cbn [forallb] in Hs. apply andb_true_iff in Hs as [Hu Hs].
    rewrite quote_body_unit, <- app_assoc, lex_quote_unit, IH, <- app_assoc
      by assumption.
    reflexivity.
Qed.

Lemma unicode_escape_ascii c :
  is_code_unit c = true -> forallb is_ascii (JSON.unicode_escape c) = true.
Proof.
  intros Hc. destruct (hex_split c Hc) as (a & b & d & e & <- & <- & <- & <- & _ & ?).
  unfold JSON.unicode_escape. cbn [forallb].
  rewrite !hex_digit_ascii by lia. reflexivity.
Qed.

Lemma WellFormed_quote_unit c :
  is_code_unit c = true -> WellFormed (JSON.quote_unit c).
Proof.
  intros Hc. unfold JSON.quote_unit.
  repeat match goal with
         | |- context [if (c =? ?k) then _ else _] =>
             destruct (c =? k) eqn:?;
             [apply WellFormed_ascii; reflexivity|]
         end.
  destruct ((c <? 32) || in_range 55296 57343 c) eqn:E.
  - apply WellFormed_ascii, unicode_escape_ascii, Hc.
  - apply orb_false_iff in E as [E1 E2]. apply wf_unit; auto using wf_nil.
Qed.

#[local] Hint Resolve WellFormed_quote_unit : wf.

Lemma WellFormed_quote_body s :
  is_string s = true -> WellFormed (JSON.quote_body s).
Proof.
  unfold is_string.
  induction s as [|c d s Hc Hd IH|c s Hc IH] using code_point_ind; intros Hs.
  - constructor.
  - cbn [forallb] in Hs. apply andb_true_iff in Hs as [_ Hs].
    apply andb_true_iff in Hs as [_ Hs].
    rewrite quote_body_pair by assumption. auto with wf.
  - cbn [forallb] in Hs. apply andb_true_iff in Hs as [Hu Hs].
    rewrite quote_body_unit by assumption.
    auto with wf.
Qed.

Lemma digits_value_snoc ds d :
  JSON.digits_value (ds ++ [d]) = JSON.digits_value ds * 10 + d.
Proof. unfold JSON.digits_value. rewrite fold_left_app. reflexivity. Qed.

Lemma no_leading_zero_snoc ds d :
  JSON.no_leading_zero ds = true -> JSON.digits_value ds <> 0 ->
  JSON.no_leading_zero (ds ++ [d]) = true.
Proof.
  destruct ds as [|x [|y ds]]; cbn; try discriminate; auto.
  intros _ Hx. apply negb_true_iff, Z.eqb_neq. lia.
Qed.

Lemma digits_before_spec fuel : forall z acc,
  0 <= z < 2 ^ Z.of_nat fuel -> (0 < fuel)%nat ->
  exists ds,
    JSON.digits_before fuel z acc = digit_chars ds ++ acc
    /\ forallb is_digit_value ds = true
    /\ JSON.digits_value ds = z
    /\ JSON.no_leading_zero ds = true.
Proof.
  induction fuel as [|fuel IH]; intros z acc Hz Hf; [lia|].
  cbn [JSON.digits_before]. destruct (z <? 10) eqn:E; bool_hyps.
  - exists [z]. rewrite Z.mod_small by lia. cbn. repeat split.
    rewrite andb_true_r. apply in_range_true. lia.
  - assert (0 < fuel)%nat as Hf'.
    { destruct fuel; [cbn in Hz; lia|lia]. }
    rewrite Nat2Z.inj_succ, Z.pow_succ_r in Hz by lia.
    destruct (IH (z / 10) ((48 + z mod 10) :: acc)) as (ds & -> & Hd & Hv & Hl);
      [zdm|assumption|].
    exists (ds ++ [z mod 10]). repeat split.
    + unfold digit_chars. rewrite map_app, <- app_assoc. reflexivity.
    + rewrite forallb_app, Hd. cbn. rewrite andb_true_r.
      apply in_range_true. zdm.
    + rewrite digits_value_snoc, Hv. zdm.
    + apply no_leading_zero_snoc; [assumption|]. rewrite Hv. zdm.
Qed.

Lemma Number_toString_spec z :
  exists ds,
    JSON.Number_toString z
    = (if z <? 0 then [45] else []) ++ digit_chars ds
    /\ forallb is_digit_value ds = true
    /\ JSON.digits_value ds = Z.abs z
    /\ JSON.no_leading_zero ds = true.
Proof.
  unfold JSON.Number_toString.
  destruct (digits_before_spec (S (Z.to_nat (Z.log2 (Z.abs z)))) (Z.abs z) [])
    as (ds & E & H); [|lia|].
  - rewrite Nat2Z.inj_succ, Z2Nat.id by apply Z.log2_nonneg.
    destruct (Z.eq_dec (Z.abs z) 0) as [->|Hn]; [cbn; lia|].
    pose proof (Z.log2_spec (Z.abs z)). lia.
  - exists ds. rewrite E, app_nil_r. split; [|exact H].
    destruct (z <? 0); reflexivity.
Qed.

Lemma span_digits_chars ds :
  forallb is_digit_value ds = true ->
  JSON.span_digits (digit_chars ds) = (ds, []).
Proof.
  induction ds as [|d ds IH]; cbn [forallb digit_chars map JSON.span_digits];
    [reflexivity|].
  rewrite andb_true_iff. intros [Hd Hds]. unfold JSON.is_digit.
  unfold is_digit_value in Hd. test_is true.
  fold (digit_chars ds). rewrite (IH Hds). f_equal. f_equal. lia.
Qed.

Lemma number_of_lexeme_toString z :
  JSON.number_of_lexeme (JSON.Number_toString z) = Some (z, 0).
Proof.
  destruct (Number_toString_spec z) as (ds & -> & Hd & Hv & Hl).
  assert (JSON.number_of_lexeme
            ((if z <? 0 then [45] else []) ++ digit_chars ds)
          = Some ((if z <? 0 then -1 else 1) * JSON.digits_value ds, 0)) as ->.
  { unfold JSON.number_of_lexeme.
    destruct (z <? 0) eqn:E; cbn [app].
    - cbn [Z.eqb Pos.eqb]. rewrite (span_digits_chars ds Hd), Hl.
      cbn [negb]. rewrite app_nil_r. reflexivity.
    - destruct ds as [|d ds]; [discriminate|].
      pose proof Hd as Hd'. cbn [forallb] in Hd'.
      apply andb_true_iff in Hd' as [Hd0 _]. unfold is_digit_value in Hd0.
      change (digit_chars (d :: ds)) with ((48 + d) :: digit_chars ds).
      cbv beta iota. test_is false.
      change ((48 + d) :: digit_chars ds) with (digit_chars (d :: ds)).
      rewrite (span_digits_chars (d :: ds) Hd), Hl.
      cbn [negb]. rewrite app_nil_r. reflexivity. }
  rewrite Hv. destruct (z <? 0) eqn:E; bool_hyps; do 2 f_equal; lia.
Qed.

Lemma digit_chars_number_chars ds :
  forallb is_digit_value ds = true ->
  forallb JSON.is_number_char (digit_chars ds) = true
  /\ forallb is_ascii (digit_chars ds) = true.
Proof.
  induction ds as [|d ds IH]; cbn [forallb digit_chars map]; [auto|].
  rewrite andb_true_iff. intros [Hd Hds]. fold (digit_chars ds).
  destruct (IH Hds) as [-> ->]. unfold is_digit_value in Hd.
  unfold JSON.is_number_char, JSON.is_digit, is_ascii.
  split; rewrite andb_true_r.
  - replace (in_range 48 57 (48 + d)) with true by (symmetry; bool_lin).
    reflexivity.
  - bool_lin.
Qed.

Lemma lex_number_chars w : forall acc tail,
  forallb JSON.is_number_char w = true ->
  JSON.lex (JSON.LNumber acc) (w ++ tail)
  = JSON.lex (JSON.LNumber (acc ++ w)) tail.
Proof.
  induction w as [|c w IH]; intros acc tail; cbn [forallb app].
  - rewrite app_nil_r. reflexivity.
  - rewrite andb_true_iff. intros [Hc Hw].
    destruct tail as [|t tail].
    + rewrite app_nil_r in *. cbn [JSON.lex]. rewrite Hc.
      specialize (IH (acc ++ [c]) [] Hw). rewrite app_nil_r in IH.
      rewrite IH, <- app_assoc. reflexivity.
    + cbn [JSON.lex]. rewrite Hc, IH, <- app_assoc by assumption. reflexivity.
Qed.

(** The scanner reads a printed integer back when a closing brace follows. *)
Lemma lex_Number_toString z rest :
  JSON.lex JSON.LStart (JSON.Number_toString z ++ 125 :: rest)
  = JSON.emit [JSON.TNumber z 0; JSON.TRBrace] (JSON.lex JSON.LStart rest).
Proof.
  pose proof (number_of_lexeme_toString z) as Hn.
  destruct (Number_toString_spec z) as (ds & E & Hd & Hv & Hl).
  destruct (digit_chars_number_chars ds Hd) as [Hc _].
  rewrite E in *. clear E.
  assert (exists x w, (if z <? 0 then [45] else []) ++ digit_chars ds = x :: w
                      /\ JSON.start_step x = Some (JSON.LNumber [x], [])
                      /\ forallb JSON.is_number_char w = true)
    as (x & w & E & Hx & Hw).
  { destruct (z <? 0).
    - exists 45, (digit_chars ds). auto.
    - destruct ds as [|d ds]; [discriminate|].
      exists (48 + d), (digit_chars ds). cbn [forallb] in Hd.
      apply andb_true_iff in Hd as [Hd0 Hds]. unfold is_digit_value in Hd0.
      destruct (digit_chars_number_chars ds Hds) as [-> _].
      repeat split. unfold JSON.start_step, JSON.is_ws, JSON.is_digit.
      repeat match goal with
             | |- context [48 + d =? ?k] =>
                 replace (48 + d =? k) with false by (symmetry; bool_lin)
             end.
      cbn [orb]. rewrite orb_false_r. test_is true. reflexivity. }
  rewrite E in *. cbn [app]. cbn [JSON.lex]. rewrite Hx.
  rewrite lex_number_chars by assumption. cbn [JSON.lex app].
  unfold JSON.number_token. rewrite Hn.
  change (JSON.is_number_char 125) with false.
  change (JSON.start_step 125) with (Some (JSON.LStart, [JSON.TRBrace])).
  cbv iota. destruct (JSON.lex JSON.LStart rest); reflexivity.
Qed.

Lemma WellFormed_Number_toString z : WellFormed (JSON.Number_toString z).
Proof.
  destruct (Number_toString_spec z) as (ds & -> & Hd & _).
  apply WellFormed_ascii. rewrite forallb_app.
  destruct (digit_chars_number_chars ds Hd) as [_ ->].
  destruct (z <? 0); reflexivity.
Qed.

End JSONText.

(** ** The marker *)

Section Marker.

Lemma strip_prefix_app p s : strip_prefix p (p ++ s) = Some s.
Proof.
  induction p as [|x p IH]; [reflexivity|].
  cbn [app strip_prefix]. rewrite Z.eqb_refl. exact IH.
Qed.

Lemma strip_prefix_Some p : forall s r, strip_prefix p s = Some r -> s = p ++ r.
Proof.
  induction p as [|x p IH]; intros s r; cbn [strip_prefix].
  - intros E. injection E as ->. reflexivity.
  - destruct s as [|y s]; [discriminate|].
    destruct (x =? y) eqn:E; [|discriminate].
    apply Z.eqb_eq in E as ->. intros H. cbn [app]. f_equal. auto.
Qed.

Lemma dot_star_all s :
  forallb (fun c => negb (Codec.is_line_terminator c)) s = true ->
  Codec.dot_star s = s.
Proof.
  induction s as [|c s IH]; cbn [forallb Codec.dot_star]; [reflexivity|].
  rewrite andb_true_iff, negb_true_iff. intros [-> Hs]. rewrite IH; auto.
Qed.

Lemma b64_text_no_terminator s :
  forallb b64_text s = true ->
  forallb (fun c => negb (Codec.is_line_terminator c)) s = true.
Proof.
  induction s as [|c s IH]; cbn [forallb]; [reflexivity|].
  rewrite !andb_true_iff. intros [Hc Hs]. split; auto.
  unfold b64_text in Hc. unfold Codec.is_line_terminator.
  repeat match goal with
         | |- context [c =? ?k] =>
             replace (c =? k) with false by (symmetry; bool_lin)
         end.
  reflexivity.
Qed.

Lemma match_marker_encoded s :
  forallb b64_text s = true ->
  Codec.match_marker (Codec.marker ++ s) = Some s.
Proof.
  intros H.
  assert (Codec.match_marker (Codec.marker ++ s) = Some (Codec.dot_star s)) as ->.
  { pose proof (strip_prefix_app Codec.marker s) as E.
    destruct (Codec.marker ++ s) eqn:Es; cbn [Codec.match_marker];
      rewrite E; reflexivity. }
  rewrite dot_star_all; auto using b64_text_no_terminator.
Qed.

Lemma match_marker_first a : forall b s,
  first_marker a b s -> Codec.match_marker s = Some (Codec.dot_star b).
Proof.
  induction a as [|x a IH]; intros b s [E Hmin].
  - cbn [app] in E. subst s.
    pose proof (strip_prefix_app Codec.marker b) as Hp.
    destruct (Codec.marker ++ b); cbn [Codec.match_marker]; rewrite Hp;
      reflexivity.
  - subst s. cbn [app Codec.match_marker].
    destruct (strip_prefix Codec.marker (x :: a ++ Codec.marker ++ b)) as [r|] eqn:Ep.
    + apply strip_prefix_Some in Ep.
      specialize (Hmin [] r Ep). cbn in Hmin. lia.
    + apply IH. split; [reflexivity|].
      intros a' b' E'. specialize (Hmin (x :: a') b').
      cbn [app List.length] in Hmin. rewrite E' in Hmin.
      specialize (Hmin eq_refl). lia.
Qed.

Lemma match_marker_None s :
  Codec.match_marker s = None ->
  forall a b, s <> a ++ Codec.marker ++ b.
Proof.
  intros H a. revert s H.
  induction a as [|x a IH]; intros s H b E; subst s.
  - cbn [app] in H. pose proof (strip_prefix_app Codec.marker b) as Hp.
    destruct (Codec.marker ++ b); cbn [Codec.match_marker] in H;
      rewrite Hp in H; discriminate.
  - cbn [app Codec.match_marker] in H.
    destruct (strip_prefix Codec.marker _); [discriminate|].
    apply (IH _ H b). reflexivity.
Qed.

Lemma match_marker_Some s : forall p,
  Codec.match_marker s = Some p ->
  exists a b, first_marker a b s /\ p = Codec.dot_star b.
Proof.
  induction s as [|x s IH]; intros p; [discriminate|].
  cbn [Codec.match_marker].
  destruct (strip_prefix Codec.marker (x :: s)) as [rest|] eqn:Ep.
  - intros E. injection E as <-. exists [], rest. split; [|reflexivity].
    split; [exact (strip_prefix_Some _ _ _ Ep)|]. intros; cbn; lia.
  - intros E. destruct (IH p E) as (a & b & [Es Hmin] & ->).
    exists (x :: a), b. split; [|reflexivity]. split.
    + cbn [app]. f_equal. exact Es.
    + intros [|y a'] b' E'.
      * cbn [app] in E'. rewrite E' in Ep.
        rewrite strip_prefix_app in Ep. discriminate.
      * cbn [app] in E'. injection E' as _ E'.
        specialize (Hmin a' b' E'). cbn [List.length]. lia.
Qed.

Lemma first_marker_exists s :
  (exists a b, s = a ++ Codec.marker ++ b) ->
  exists a b, first_marker a b s.
Proof.
  intros (a & b & E).
  destruct (Codec.match_marker s) as [p|] eqn:Em.
  - destruct (match_marker_Some s p Em) as (a' & b' & H & _). eauto.
  - exfalso. exact (match_marker_None s Em a b E).
Qed.

End Marker.

(** ** The round trip *)

Section RoundTrip.

Lemma parse_stringify r :
  is_string (HostInfo.host r) = true ->
  JSON.parse (Codec.JSON_stringify r) = Some (Codec.to_json r).
Proof.
  destruct r as [t h p]. cbn [HostInfo.host]. intros Hh.
  unfold JSON.parse, Codec.JSON_stringify, Codec.to_json, JSON.QuoteJSONString.
  cbn [HostInfo.type HostInfo.host HostInfo.port].
  remember (JSON.quote_body h) as Q eqn:EQ.
  destruct t, p as [p|]; try remember (JSON.Number_toString p) as N eqn:EN;
    rewrite <- ?app_assoc;
    cbn -[JSON.parse_tokens JSON.emit]; subst Q;
    rewrite lex_quote_body by assumption;
    cbn -[JSON.parse_tokens JSON.emit];
    try (subst N; rewrite lex_Number_toString);
    reflexivity.
Qed.

Lemma WellFormed_stringify r :
  is_string (HostInfo.host r) = true -> WellFormed (Codec.JSON_stringify r).
Proof.
  intros Hh. unfold Codec.JSON_stringify, JSON.QuoteJSONString.
  repeat apply WellFormed_app;
    try (apply WellFormed_ascii; reflexivity);
    auto using WellFormed_quote_body.
  - destruct (HostInfo.type r); apply WellFormed_ascii; reflexivity.
  - destruct (HostInfo.port r); [|constructor].
    repeat apply WellFormed_app;
      try (apply WellFormed_ascii; reflexivity).
    apply WellFormed_Number_toString.
Qed.

Lemma decode_encode_string r :
  is_string (HostInfo.host r) = true ->
  Codec.decode_remote_host (Codec.encode_remote_host r)
  = Return (Some (Codec.to_json r)).
Proof.
  intros Hh. unfold Codec.decode_remote_host, Codec.encode_remote_host.
  pose proof (WellFormed_stringify r Hh) as Hw.
  pose proof (from_utf8_bytes _ (is_string_WellFormed _ Hw)) as Hb.
  rewrite match_marker_encoded by (apply toString_base64_text, Hb).
  rewrite from_base64_toString by assumption.
  rewrite <- (app_nil_r (Buffer.from_utf8 _)), toString_from_utf8 by assumption.
  cbn [Buffer.toString_utf8]. rewrite app_nil_r, parse_stringify by assumption.
  reflexivity.
Qed.

(** One more code unit in front of a token: the input no longer begins
    with the marker, which is found one position further on. *)
Lemma strip_prefix_shifted c s :
  strip_prefix Codec.marker (c :: Codec.marker ++ s) = None.
Proof.
  change (Codec.marker ++ s) with (114 :: 101 :: (js "mote-oss+" ++ s)).
  change Codec.marker with (114 :: js "emote-oss+").
  cbn [strip_prefix]. destruct (114 =? c); reflexivity.
Qed.

Lemma decode_shifted c r :
  Codec.decode_remote_host (c :: Codec.encode_remote_host r)
  = Codec.decode_remote_host (Codec.encode_remote_host r).
Proof.
  unfold Codec.decode_remote_host, Codec.encode_remote_host.
  cbn [Codec.match_marker]. rewrite strip_prefix_shifted. reflexivity.
Qed.

(** The decoder reads low bytes.  After the marker, the code units 357,
    307 and 304 count as [e30], the text of an empty object; and 321 after
    [e30] counts as [A], which adds a zero byte that [JSON.parse]
    rejects. *)
Lemma decode_low_bytes :
  Codec.decode_remote_host (Codec.marker ++ [357; 307; 304])
  = Return (Some (JSON.JObject []))
  /\ Codec.decode_remote_host (Codec.marker ++ [101; 51; 48; 321])
     = Throw SyntaxError
  /\ Codec.decode_remote_host (Codec.marker ++ [101; 51; 48])
     = Return (Some (JSON.JObject [])).
Proof. repeat split. Qed.

End RoundTrip.

(** ** Host items *)

Section Items.

Lemma normalize_token_nonempty t : normalize_token t <> TokString [].
Proof.
  destruct t as [[b|[|c s]]|]; cbn; discriminate.
Qed.

(** The folders leave the rest of the item alone. *)
Lemma attach_folders_fields folders : forall item,
  let item' := fold_left attach_folder folders item in
  PlainHostItem.label item' = PlainHostItem.label item
  /\ PlainHostItem.name item' = PlainHostItem.name item
  /\ PlainHostItem.host item' = PlainHostItem.host item
  /\ PlainHostItem.port item' = PlainHostItem.port item
  /\ PlainHostItem.connectionToken item' = PlainHostItem.connectionToken item.
Proof.
  induction folders as [|f folders IH]; intros item; cbv zeta;
    cbn [fold_left]; [repeat split|].
  destruct (IH (attach_folder item f)) as (-> & -> & -> & -> & ->).
  unfold attach_folder.
  destruct (PlainHostItem.label item) eqn:E, f; cbn; auto.
Qed.

Lemma host_item_fields c :
  PlainHostItem.label (host_item c) = HostConfig.name c
  /\ PlainHostItem.name (host_item c) = HostConfig.name c
  /\ PlainHostItem.host (host_item c) = HostConfig.host c
  /\ PlainHostItem.port (host_item c) = HostConfig.port c
  /\ PlainHostItem.connectionToken (host_item c)
     = normalize_token (HostConfig.connectionToken c).
Proof.
  unfold host_item. destruct (HostConfig.folders c) as [folders|]; [|cbn; auto].
  apply attach_folders_fields.
Qed.

Lemma attach_folders_back folders : forall item,
  (forall f, In f (PlainHostItem.folders item) ->
             PlainHostItem.label item = LabelString (FolderItem.host f)) ->
  forall f, In f (PlainHostItem.folders (fold_left attach_folder folders item)) ->
            PlainHostItem.label item = LabelString (FolderItem.host f).
Proof.
  induction folders as [|x folders IH]; intros item Hitem f; cbn [fold_left];
    [apply Hitem|].
  intros Hf.
  assert (PlainHostItem.label (attach_folder item x) = PlainHostItem.label item)
    as El.
  { unfold attach_folder.
    destruct (PlainHostItem.label item) eqn:E, x; cbn; auto. }
  rewrite <- El. apply (IH (attach_folder item x)); [|exact Hf].
  rewrite El. clear Hf f. intros f Hf. unfold attach_folder in Hf.
  destruct (PlainHostItem.label item) as [s|] eqn:E; [|auto].
  destruct x; cbn [PlainHostItem.addFolder PlainHostItem.folders] in Hf;
    apply in_app_or in Hf as [Hf|[<-|[]]]; auto.
Qed.

Lemma attach_folders_skipped folders : forall item,
  PlainHostItem.label item = LabelOther ->
  fold_left attach_folder folders item = item.
Proof.
  induction folders as [|x folders IH]; intros item E; cbn [fold_left];
    [reflexivity|].
  unfold attach_folder at 2. rewrite E. apply IH, E.
Qed.

Lemma host_item_back c f :
  In f (PlainHostItem.folders (host_item c)) ->
  HostConfig.name c = LabelString (FolderItem.host f).
Proof.
  unfold host_item. destruct (HostConfig.folders c) as [folders|];
    [|intros []].
  intros Hf. apply attach_folders_back in Hf; [exact Hf|intros ? []].
Qed.

Lemma host_item_skipped c :
  HostConfig.name c = LabelOther -> PlainHostItem.folders (host_item c) = [].
Proof.
  intros E. unfold host_item. destruct (HostConfig.folders c) as [folders|];
    [|reflexivity].
  rewrite attach_folders_skipped; auto.
Qed.

End Items.

(** ** The registry *)

Section Registry.

Lemma read_hosts_spec hosts : forall manual n,
  read_hosts hosts manual n
  = ({| KindItem.label := KindItem.label manual;
        KindItem.hosts := KindItem.hosts manual ++ registry hosts |},
     (n + List.length (registry hosts))%nat).
Proof.
  unfold registry.
  induction hosts as [|c hosts IH]; intros manual n; cbn [read_hosts].
  - cbn. rewrite app_nil_r, Nat.add_0_r. destruct manual; reflexivity.
  - cbn [filter].
    assert (is_manual c
            = match HostConfig.type c with Manual => true | _ => false end)
      as -> by reflexivity.
    destruct (HostConfig.type c); rewrite IH; [|reflexivity].
    cbn [KindItem.addHost KindItem.label KindItem.hosts map List.length].
    rewrite <- app_assoc. f_equal. lia.
Qed.

Lemma build_tree_hosts value :
  hosts_of (fst (build_tree value))
  = match value with Some hosts => registry hosts | None => [] end.
Proof.
  destruct value as [hosts|]; [|reflexivity].
  unfold build_tree. rewrite read_hosts_spec. cbn [KindItem.new KindItem.hosts app].
  destruct (registry hosts) eqn:E; cbn; rewrite ?app_nil_r; reflexivity.
Qed.

Lemma build_tree_count value :
  snd (build_tree value)
  = List.length (match value with Some hosts => registry hosts | None => [] end).
Proof.
  destruct value as [hosts|]; [|reflexivity].
  unfold build_tree. rewrite read_hosts_spec. reflexivity.
Qed.

Lemma in_hosts_of tree k h :
  In (Kind k) tree -> In h (KindItem.hosts k) -> In h (hosts_of tree).
Proof.
  intros Hk Hh. unfold hosts_of. apply in_flat_map.
  exists (Kind k). auto.
Qed.

Lemma in_built_hosts value h :
  In h (hosts_of (fst (build_tree value))) ->
  exists c, h = host_item c.
Proof.
  rewrite build_tree_hosts. destruct value as [hosts|]; [|intros []].
  unfold registry. rewrite in_map_iff. intros (c & <- & _). eauto.
Qed.

Lemma strict_eq_true a : forall b, strict_eq a b = true <-> a = b.
Proof.
  induction a as [|x a IH]; intros [|y b]; cbn [strict_eq];
    try (split; [discriminate|discriminate]); [tauto|].
  rewrite andb_true_iff, Z.eqb_eq, IH. split.
  - intros [-> ->]. reflexivity.
  - intros E. injection E. auto.
Qed.

Lemma label_is_true label h :
  label_is label h = true <-> PlainHostItem.label h = LabelString label.
Proof.
  unfold label_is. destruct (PlainHostItem.label h) as [s|].
  - rewrite strict_eq_true. split; [intros ->; reflexivity|].
    intros E. injection E. auto.
  - split; discriminate.
Qed.

Lemma find_first_named label hosts c :
  first_named label hosts c ->
  find (label_is label) (registry hosts) = Some (host_item c).
Proof.
  intros (pre & post & E & Hc & Hpre). unfold registry. rewrite E. clear E.
  induction pre as [|x pre IH]; cbn [app map find].
  - replace (label_is label (host_item c)) with true; [reflexivity|].
    symmetry. apply label_is_true.
    destruct (host_item_fields c) as (-> & _). exact Hc.
  - destruct (label_is label (host_item x)) eqn:E.
    + apply label_is_true in E.
      destruct (host_item_fields x) as (Hx & _). rewrite Hx in E.
      exfalso. apply (Hpre x); [left; reflexivity|exact E].
    + apply IH. intros y Hy. apply Hpre. right. exact Hy.
Qed.

Lemma filter_head_find {A} (f : A -> bool) l :
  match filter f l with [] => None | x :: _ => Some x end = find f l.
Proof.
  induction l as [|a l IH]; cbn [filter find]; [reflexivity|].
  destruct (f a); auto.
Qed.

End Registry.

(** ** The resolver *)

Section Resolver.

Lemma readTree_spec w : readTree w = (Return tt, rebuilt w).
Proof.
  unfold readTree, rebuilt, bind, getConfiguration.
  destruct (build_tree (configuration w)). reflexivity.
Qed.

Lemma remotesTree_rebuilt w :
  remotesTree (rebuilt w) = Some (fst (build_tree (configuration w))).
Proof. unfold rebuilt. destruct (build_tree (configuration w)). reflexivity. Qed.

Lemma remotesTree_loaded w : remotesTree (loaded w) = Some (tree_of w).
Proof.
  unfold tree_of, loaded. destruct (remotesTree w) eqn:E.
  - rewrite E. reflexivity.
  - rewrite remotesTree_rebuilt. reflexivity.
Qed.

Lemma loaded_idem w : loaded (loaded w) = loaded w.
Proof. unfold loaded at 1. rewrite remotesTree_loaded. reflexivity. Qed.

Lemma loaded_io w :
  inputBox (loaded w) = inputBox w /\ shown (loaded w) = shown w.
Proof.
  unfold loaded, rebuilt. destruct (remotesTree w); [auto|].
  destruct (build_tree (configuration w)). auto.
Qed.

Lemma configurationChanged_spec value w :
  configurationChanged value w = (Return tt, changed value w).
Proof. unfold configurationChanged. apply readTree_spec. Qed.

Lemma tree_of_changed value w :
  tree_of (changed value w) = fst (build_tree value)
  /\ loaded (changed value w) = changed value w.
Proof.
  assert (forall v, loaded (rebuilt v) = rebuilt v) as Hl.
  { intros v. unfold loaded. rewrite remotesTree_rebuilt. reflexivity. }
  unfold tree_of, changed. rewrite Hl, remotesTree_rebuilt. auto.
Qed.

Lemma getChildren_spec element w :
  getChildren element w = (Return (children element (tree_of w)), loaded w).
Proof.
  pose proof (remotesTree_loaded w) as Hl.
  unfold getChildren, bind, get_remotesTree, loaded in *.
  destruct (remotesTree w) eqn:E.
  - unfold ret. destruct element as [[k|h|f]|]; try reflexivity.
    rewrite Hl. reflexivity.
  - rewrite readTree_spec.
    destruct element as [[k|h|f]|]; try reflexivity.
    rewrite Hl. reflexivity.
Qed.

Lemma _getHostList_hosts depth hosts : forall out w,
  _getHostList (S depth) out (map Host hosts) w = (Return (out ++ hosts), w).
Proof.
  induction hosts as [|h hosts IH]; intros out w.
  - cbn. rewrite app_nil_r. reflexivity.
  - cbn [map]. cbn [_getHostList] in *. rewrite IH, <- app_assoc. reflexivity.
Qed.

(** Two levels of calls are enough on every tree. *)
Lemma _getHostList_spec depth root : forall out w,
  loaded w = w ->
  _getHostList (S (S depth)) out root w = (Return (out ++ hosts_of root), w).
Proof.
  induction root as [|entry root IH]; intros out w Hw.
  - cbn. rewrite app_nil_r. reflexivity.
  - cbn [_getHostList] in *. cbn [hosts_of flat_map].
    fold (hosts_of root).
    destruct entry as [k|h|f].
    + unfold bind at 1. rewrite getChildren_spec, Hw. cbn [children].
      unfold bind at 1.
      change ((fix loop (root0 : list TreeItem) (out0 : list PlainHostItem.t)
                 {struct root0} : M (list PlainHostItem.t) := _) 
                (map Host (KindItem.hosts k)) out w)
        with (_getHostList (S depth) out (map Host (KindItem.hosts k)) w).
      rewrite _getHostList_hosts, IH, <- app_assoc by assumption. reflexivity.
    + rewrite IH, <- app_assoc by assumption. reflexivity.
    + unfold bind at 1. rewrite getChildren_spec, Hw. cbn [children].
      unfold bind at 1. cbn [ret]. rewrite IH by assumption. reflexivity.
Qed.

Lemma getHostList_spec w :
  getHostList w = (Return (hosts_of (tree_of w)), loaded w).
Proof.
  unfold getHostList, bind. rewrite getChildren_spec. cbn [children].
  rewrite _getHostList_spec by apply loaded_idem. reflexivity.
Qed.

Lemma resolveHost_spec label w :
  resolveHost label w
  = (match find (label_is label) (hosts_of (tree_of w)) with
     | Some h => Return h
     | None => Throw (not_configured label)
     end, loaded w).
Proof.
  unfold resolveHost, bind. rewrite getHostList_spec.
  rewrite <- filter_head_find.
  destruct (filter (label_is label) (hosts_of (tree_of w))); reflexivity.
Qed.

Lemma pickToken_spec w : pickToken w = (Return (inputBox w (shown w)), prompted w).
Proof. reflexivity. Qed.

Lemma resolveAuthority_configured host port w :
  resolveAuthority
    {| HostInfo.type := Configured; HostInfo.host := host; HostInfo.port := port |} w
  = match find (label_is host) (hosts_of (tree_of w)) with
    | Some h => authority_of h (loaded w)
    | None => (Throw (not_configured host), loaded w)
    end.
Proof.
  unfold resolveAuthority. cbn [HostInfo.type HostInfo.host HostInfo.port].
  unfold bind at 1. rewrite resolveHost_spec.
  destruct (find (label_is host) (hosts_of (tree_of w))) as [h|]; [|reflexivity].
  unfold authority_of, credentialPolicy.
  destruct (PlainHostItem.connectionToken h) as [[|]|s]; try reflexivity.
  unfold bind. rewrite pickToken_spec.
  destruct (js_not (inputBox (loaded w) (shown (loaded w)))); reflexivity.
Qed.

Lemma resolveAuthority_transient host port w :
  resolveAuthority
    {| HostInfo.type := Transient; HostInfo.host := host; HostInfo.port := port |} w
  = (Return {| ResolvedAuthority.host := host;
               ResolvedAuthority.port := port;
               ResolvedAuthority.connectionToken :=
                 if js_not (inputBox w (shown w)) then None
                 else inputBox w (shown w) |},
     prompted w).
Proof.
  unfold resolveAuthority. cbn [HostInfo.type HostInfo.host HostInfo.port].
  unfold bind. rewrite pickToken_spec.
  destruct (js_not (inputBox w (shown w))); reflexivity.
Qed.

End Resolver.

(** ** Every tree was built from some settings *)

Section Invariant.

Lemma built_rebuilt w : built (rebuilt w).
Proof. unfold built. rewrite remotesTree_rebuilt. eauto. Qed.

Lemma built_loaded w : built w -> built (loaded w).
Proof.
  unfold loaded. destruct (remotesTree w) eqn:E; auto using built_rebuilt.
Qed.

Lemma built_prompted w : built w -> built (prompted w).
Proof. auto. Qed.

#[local] Hint Resolve built_rebuilt built_loaded built_prompted : built.

Lemma resolveAuthority_world info w :
  snd (resolveAuthority info w) = loaded w
  \/ snd (resolveAuthority info w) = prompted w
  \/ snd (resolveAuthority info w) = prompted (loaded w).
Proof.
  destruct info as [[|] host port].
  - rewrite resolveAuthority_transient. auto.
  - rewrite resolveAuthority_configured.
    destruct (find _ _) as [h|]; [|auto].
    unfold authority_of. destruct (credentialPolicy h); auto.
Qed.

Lemma reachable_built w : reachable w -> built w.
Proof.
  induction 1 as [value answers|w value r w' _ IH E|w element r w' _ IH E
                 |w info r w' _ IH E].
  - exact I.
  - rewrite configurationChanged_spec in E. injection E as _ <-.
    apply built_rebuilt.
  - rewrite getChildren_spec in E. injection E as _ <-.
    auto with built.
  - pose proof (resolveAuthority_world info w) as Hw. rewrite E in Hw.
    cbn [snd] in Hw.
    destruct Hw as [-> | [-> | ->]];
      auto with built.
Qed.

Lemma js_not_false_nonempty a : js_not a = false -> a <> Some [].
Proof. intros H ->. discriminate. Qed.

Section BuiltWorld.

Variable w : world.
Hypothesis Hb : built w.

Lemma built_tree_of : exists value, tree_of w = fst (build_tree value).
Proof.
  revert Hb. unfold built, tree_of, loaded. destruct (remotesTree w) eqn:E.
  - rewrite E. auto.
  - rewrite remotesTree_rebuilt. eauto.
Qed.

Lemma built_tokens h :
  In h (hosts_of (tree_of w)) ->
  PlainHostItem.connectionToken h <> TokString [].
Proof.
  intros Hh. destruct built_tree_of as (value & E).
  rewrite E in Hh. apply in_built_hosts in Hh as (c & ->).
  destruct (host_item_fields c) as (_ & _ & _ & _ & ->).
  apply normalize_token_nonempty.
Qed.

Lemma resolved_token_nonempty info ra w' :
  resolveAuthority info w = (Return ra, w') ->
  ResolvedAuthority.connectionToken ra <> Some [].
Proof.
  destruct info as [[|] host port].
  - rewrite resolveAuthority_transient. intros E. injection E as <- _.
    cbn [ResolvedAuthority.connectionToken].
    destruct (js_not (inputBox w (shown w))) eqn:En;
      [discriminate|apply js_not_false_nonempty, En].
  - rewrite resolveAuthority_configured.
    destruct (find _ _) as [h|] eqn:Ef; [|discriminate].
    apply find_some in Ef as [Hin _].
    pose proof (built_tokens h Hin) as Ht.
    unfold authority_of, credentialPolicy.
    destruct (PlainHostItem.connectionToken h) as [[|]|s].
    + destruct (js_not _) eqn:En; [discriminate|].
      intros E. injection E as <- _.
      apply js_not_false_nonempty, En.
    + intros E. injection E as <- _. discriminate.
    + intros E. injection E as <- _. cbn. intros E'. injection E' as ->.
      apply Ht. reflexivity.
Qed.

End BuiltWorld.

End Invariant.

(** ** The transient-host input *)

Section TransientInput.

Lemma span_until_spec stop s :
  let (a, r) := span_until stop s in
  s = a ++ r /\ ~ In stop a
  /\ match r with [] => True | c :: _ => c = stop end.
Proof.
  induction s as [|c s IH]; cbn [span_until]; [auto|].
  destruct (c =? stop) eqn:E.
  - apply Z.eqb_eq in E. cbn. auto.
  - apply Z.eqb_neq in E. destruct (span_until stop s) as [a r].
    destruct IH as (-> & Ha & Hr). cbn [app In]. repeat split; auto.
    intros [H|H]; auto.
Qed.

Lemma span_until_app stop a : forall r,
  ~ In stop a -> span_until stop (a ++ stop :: r) = (a, stop :: r).
Proof.
  induction a as [|c a IH]; intros r Ha; cbn [app span_until].
  - rewrite Z.eqb_refl. reflexivity.
  - replace (c =? stop) with false.
    + rewrite IH; [reflexivity|]. intros H. apply Ha. right. exact H.
    + symmetry. apply Z.eqb_neq. intros ->. apply Ha. left. reflexivity.
Qed.

Lemma all_digits_nonempty digits :
  all_digits digits = true -> js_not (Some digits) = false.
Proof. destruct digits; [discriminate|reflexivity]. Qed.

Lemma all_digits_port_text d : all_digits d = true <-> port_text d.
Proof.
  unfold all_digits, port_text. rewrite andb_true_iff, forallb_forall, Forall_forall.
  split.
  - intros [Hn Hd]. split; [intros ->; discriminate|].
    intros c Hc. apply in_range_true, Hd, Hc.
  - intros [Hn Hd]. split; [destruct d; [contradiction|reflexivity]|].
    intros c Hc. apply in_range_true, Hd, Hc.
Qed.

Lemma parseInt_snoc d c : parseInt (d ++ [c]) = parseInt d * 10 + (c - 48).
Proof.
  unfold parseInt, JSON.digits_value. rewrite map_app, fold_left_app.
  reflexivity.
Qed.

Lemma port_number_snoc d : forall c,
  port_number (d ++ [c]) = port_number d * 10 + (c - 48).
Proof.
  induction d as [|x d IH]; intros c; cbn [app port_number List.length].
  - cbn. lia.
  - rewrite IH, length_app. cbn [List.length].
    replace (Z.of_nat (List.length d + 1)) with (Z.of_nat (List.length d) + 1)
      by lia.
    rewrite Z.pow_add_r by lia. lia.
Qed.

(** [parseInt] gives the number the digits spell. *)
Lemma parseInt_port_number d : parseInt d = port_number d.
Proof.
  induction d as [|c d IH] using rev_ind; [reflexivity|].
  rewrite parseInt_snoc, port_number_snoc, IH. reflexivity.
Qed.

Lemma match_bracketed_iff s h d :
  match_bracketed s = Some (h, d) <-> bracketed_form s h d.
Proof.
  unfold match_bracketed, bracketed_form. split.
  - destruct s as [|c s1]; [discriminate|].
    destruct (c =? 91) eqn:Ec; [|discriminate]. apply Z.eqb_eq in Ec as ->.
    pose proof (span_until_spec 93 s1) as Hs.
    destruct (span_until 93 s1) as [h' s2]. destruct Hs as (-> & Hh & Hr).
    destruct h' as [|x h']; [discriminate|].
    destruct s2 as [|c1 [|c2 d']]; try discriminate. subst c1.
    destruct (c2 =? 58) eqn:E2; [|discriminate]. apply Z.eqb_eq in E2 as ->.
    cbn [andb]. destruct (all_digits d') eqn:Ed; [|discriminate].
    apply all_digits_port_text in Ed.
    intros E. injection E as <- <-.
    split; [reflexivity|]. split; [discriminate|]. split; assumption.
  - intros (-> & Hh & Hn & Hd). apply all_digits_port_text in Hd.
    cbn [app]. cbn [Z.eqb Pos.eqb].
    rewrite span_until_app by assumption.
    destruct h as [|x h]; [contradiction|].
    cbn [Z.eqb Pos.eqb andb]. rewrite Hd. reflexivity.
Qed.

Lemma match_plain_iff s h d :
  match_plain s = Some (h, d) <-> plain_form s h d.
Proof.
  unfold match_plain, plain_form. split.
  - pose proof (span_until_spec 58 s) as Hs.
    destruct (span_until 58 s) as [h' s1]. destruct Hs as (-> & Hh & Hr).
    destruct h' as [|x h']; [discriminate|].
    destruct s1 as [|c1 d']; [discriminate|]. subst c1.
    destruct (all_digits d') eqn:Ed; [|discriminate].
    apply all_digits_port_text in Ed.
    intros E. injection E as <- <-.
    split; [reflexivity|]. split; [discriminate|]. split; assumption.
  - intros (-> & Hh & Hn & Hd). apply all_digits_port_text in Hd.
    cbn [app].
    rewrite span_until_app by assumption.
    destruct h as [|x h]; [contradiction|]. rewrite Hd. reflexivity.
Qed.

(** A match fills one pair of groups with non-empty strings. *)
Lemma match_host_groups s m1 m2 m3 m4 :
  match_host s = Some (m1, m2, m3, m4) ->
  exists hostname port,
    or_group m1 m3 = Some hostname /\ or_group m2 m4 = Some port.
Proof.
  unfold match_host.
  destruct (match_bracketed s) as [[h d]|] eqn:Eb.
  - apply match_bracketed_iff in Eb as (_ & Hh & _ & Hd).
    apply all_digits_port_text in Hd.
    intros E. injection E as <- <- <- <-. exists h, d.
    unfold or_group. rewrite (all_digits_nonempty d Hd).
    destruct h; [contradiction|auto].
  - destruct (match_plain s) as [[h d]|] eqn:Ep; [|discriminate].
    intros E. injection E as <- <- <- <-. exists h, d. auto.
Qed.

Lemma connect_bracketed s h d :
  bracketed_form s h d ->
  connectToTemporaryHost (Some s) = openFolder (transient_uri h (parseInt d)).
Proof.
  intros H. pose proof H as (E & Hh & _ & Hd).
  apply all_digits_port_text in Hd.
  apply match_bracketed_iff in H.
  unfold connectToTemporaryHost, match_host. rewrite H.
  assert (falsy s = false) as -> by (subst s; reflexivity).
  unfold or_group. rewrite (all_digits_nonempty d Hd).
  destruct h; [contradiction|]. reflexivity.
Qed.

Lemma connect_plain s h d :
  plain_form s h d -> match_bracketed s = None ->
  connectToTemporaryHost (Some s) = openFolder (transient_uri h (parseInt d)).
Proof.
  intros H Hb. pose proof H as (E & Hh & _ & Hd).
  apply match_plain_iff in H.
  unfold connectToTemporaryHost, match_host. rewrite Hb, H.
  assert (falsy s = false) as ->
      by (subst s; destruct h; [contradiction|reflexivity]).
  unfold or_group. cbn [js_not falsy]. reflexivity.
Qed.

Lemma connect_rejected s :
  match_bracketed s = None -> match_plain s = None ->
  connectToTemporaryHost (Some s)
  = showErrorMessage
      (if falsy s then js "Host should not be empty." else invalid_format).
Proof.
  intros Hb Hp. unfold connectToTemporaryHost, match_host. rewrite Hb, Hp.
  destruct (falsy s); reflexivity.
Qed.

Lemma hostname_no_colon h :
  is_hostname h = true -> h <> [] /\ ~ In 58 h.
Proof.
  unfold is_hostname. rewrite andb_true_iff, forallb_forall. intros [Hn Hc].
  split; [intros ->; discriminate|].
  intros H. apply Hc in H. discriminate.
Qed.

Lemma ipv6_no_bracket h :
  is_ipv6_literal_text h = true -> h <> [] /\ ~ In 93 h.
Proof.
  unfold is_ipv6_literal_text. rewrite andb_true_iff, forallb_forall.
  intros [Hn Hc]. split; [intros ->; discriminate|].
  intros H. apply Hc in H. discriminate.
Qed.

(** A hostname does not begin with a bracket: the first alternative fails
    on it. *)
Lemma hostname_not_bracketed h rest :
  is_hostname h = true -> match_bracketed (h ++ rest) = None.
Proof.
  destruct h as [|x h]; [discriminate|]. unfold is_hostname.
  cbn [falsy negb andb forallb app match_bracketed].
  rewrite andb_true_iff. intros [Hx _].
  destruct (x =? 91) eqn:E; [|reflexivity].
  apply Z.eqb_eq in E. subst x. discriminate Hx.
Qed.

End TransientInput.

(** ** The examples of the design document *)

Section DesignExamples.

(** A token without the marker is not recognized; nothing is thrown. *)
Lemma decode_without_marker s :
  (forall a b, s <> a ++ Codec.marker ++ b) ->
  Codec.decode_remote_host s = Return None.
Proof.
  intros H. unfold Codec.decode_remote_host.
  destruct (Codec.match_marker s) as [p|] eqn:E; [|reflexivity].
  destruct (match_marker_Some s p E) as (a & b & [Es _] & _).
  destruct (H a b Es).
Qed.

Example decode_other_scheme :
  Codec.decode_remote_host (js "ssh-remote+example.com") = Return None.
Proof. reflexivity. Qed.

(** A rebuild from absent or empty settings leaves no host. *)
Example rebuild_absent :
  noHosts (changed None (initial None no_answer)) = Some true
  /\ getHostList (changed None (initial None no_answer))
     = (Return [], changed None (initial None no_answer)).
Proof. split; reflexivity. Qed.

Example rebuild_empty :
  noHosts (changed (Some []) (initial None no_answer)) = Some true
  /\ getHostList (changed (Some []) (initial None no_answer))
     = (Return [], changed (Some []) (initial None no_answer)).
Proof. split; reflexivity. Qed.

(** [connectionToken: false]: no token and no input box. *)
Example resolve_open_host :
  resolveAuthority (configured "a") (changed (Some [open_host]) (initial None no_answer))
  = (Return {| ResolvedAuthority.host := js "1.2.3.4";
               ResolvedAuthority.port := Some 22;
               ResolvedAuthority.connectionToken := None |},
     changed (Some [open_host]) (initial None no_answer)).
Proof. reflexivity. Qed.

(** [connectionToken: "secret"]: that token and no input box. *)
Example resolve_secret_host :
  resolveAuthority (configured "a")
    (changed (Some [secret_host]) (initial None no_answer))
  = (Return {| ResolvedAuthority.host := js "1.2.3.4";
               ResolvedAuthority.port := Some 22;
               ResolvedAuthority.connectionToken := Some (js "secret") |},
     changed (Some [secret_host]) (initial None no_answer)).
Proof. reflexivity. Qed.

(** A name the registry does not hold. *)
Example resolve_missing :
  fst (resolveAuthority (configured "missing")
         (changed (Some [open_host]) (initial None no_answer)))
  = Throw (not_configured (js "missing")).
Proof. reflexivity. Qed.

(** A bare folder path and the entry with that name and path give the same
    folder item. *)
Lemma folders_normalized item path :
  attach_folder item (FolderPath path)
  = attach_folder item (FolderEntry path path).
Proof. reflexivity. Qed.

(** The token of a configured reference, bit for bit. *)
Example encode_configured :
  Codec.encode_remote_host (configured "a")
  = js "remote-oss+eyJ0eXBlIjoiY29uZmlndXJlZCIsImhvc3QiOiJhIn0=".
Proof. reflexivity. Qed.

End DesignExamples.

(** * The claims *)

(** C1.  For every valid host reference [r], decoding the token that
    encoding [r] produced yields [r] again: [decode(encode(r)) == r]. *)
Theorem decode_encode_roundtrip (r : HostInfo.t) :
  Codec.valid r = true ->
  Codec.decode_remote_host (Codec.encode_remote_host r)
  = Return (Some (Codec.to_json r)).
Proof.
  intros H. apply decode_encode_string.
  unfold Codec.valid in H. apply andb_true_iff in H as [H _]. exact H.
Qed.

(** C1 at the transient reference [example.com:22]. *)
Lemma decode_encode_roundtrip_witness :
  Codec.valid example_com = true
  /\ Codec.decode_remote_host (Codec.encode_remote_host example_com)
     = Return (Some (Codec.to_json example_com)).
Proof.
  split; [reflexivity|apply (decode_encode_roundtrip example_com); reflexivity].
Defined.

(** C2, as stated, fails: after a rebuild from two records named [a] the
    registry holds both, and resolving [a] uses the first record, not the
    last. *)
Lemma duplicate_names_counterexample :
  configurationChanged (Some duplicate_hosts) (initial None no_answer)
  = (Return tt, after_duplicates)
  /\ List.length
       (filter (label_is (js "a"))
          (match fst (getHostList after_duplicates) with
           | Return hosts => hosts
           | Throw _ => []
           end)) = 2%nat
  /\ fst (resolveAuthority (configured "a") after_duplicates)
     = Return {| ResolvedAuthority.host := js "1.2.3.4";
                 ResolvedAuthority.port := Some 22;
                 ResolvedAuthority.connectionToken := None |}
  /\ fst (resolveAuthority (configured "a") after_duplicates)
     <> Return {| ResolvedAuthority.host := js "5.6.7.8";
                  ResolvedAuthority.port := Some 2222;
                  ResolvedAuthority.connectionToken := Some (js "secret") |}.
Proof. repeat split. vm_compute. discriminate. Qed.

(** C2, amended.  A rebuild never fails and keeps every record of the
    supported kind, in the order of the settings, also when names repeat;
    resolving a configured reference to a name uses the first record with
    that name: its address, its port and its credential policy. *)
Theorem rebuild_keeps_duplicates_first_wins
    (w : world) (hosts : list HostConfig.t) (label : jsstring)
    (port : option Z) (c : HostConfig.t) :
  first_named label hosts c ->
  exists w',
    configurationChanged (Some hosts) w = (Return tt, w')
    /\ getHostList w' = (Return (map host_item (filter is_manual hosts)), w')
    /\ resolveHost label w' = (Return (host_item c), w')
    /\ resolveAuthority
         {| HostInfo.type := Configured; HostInfo.host := label;
            HostInfo.port := port |} w'
       = authority_of (host_item c) w'
    /\ PlainHostItem.host (host_item c) = HostConfig.host c
    /\ PlainHostItem.port (host_item c) = HostConfig.port c
    /\ PlainHostItem.connectionToken (host_item c)
       = normalize_token (HostConfig.connectionToken c).
Proof.
  intros Hc. exists (changed (Some hosts) w).
  destruct (tree_of_changed (Some hosts) w) as [Et El].
  pose proof (find_first_named label hosts c Hc) as Hf.
  destruct (host_item_fields c) as (_ & _ & Eh & Ep & Ek).
  repeat split; auto.
  - apply configurationChanged_spec.
  - rewrite getHostList_spec, Et, El, build_tree_hosts. reflexivity.
  - rewrite resolveHost_spec, Et, El, build_tree_hosts, Hf. reflexivity.
  - rewrite resolveAuthority_configured, Et, El, build_tree_hosts, Hf.
    reflexivity.
Qed.

(** C2, amended, at the two records named [a]. *)
Lemma rebuild_keeps_duplicates_first_wins_witness :
  exists w',
    configurationChanged (Some duplicate_hosts) (initial None no_answer)
    = (Return tt, w')
    /\ getHostList w'
       = (Return (map host_item (filter is_manual duplicate_hosts)), w')
    /\ resolveHost (js "a") w'
       = (Return (host_item (sample_host "a" "1.2.3.4" 22 (Some (TokBool false)))), w')
    /\ resolveAuthority (configured "a") w'
       = authority_of
           (host_item (sample_host "a" "1.2.3.4" 22 (Some (TokBool false)))) w'
    /\ PlainHostItem.host
         (host_item (sample_host "a" "1.2.3.4" 22 (Some (TokBool false))))
       = js "1.2.3.4"
    /\ PlainHostItem.port
         (host_item (sample_host "a" "1.2.3.4" 22 (Some (TokBool false))))
       = 22
    /\ PlainHostItem.connectionToken
         (host_item (sample_host "a" "1.2.3.4" 22 (Some (TokBool false))))
       = normalize_token (Some (TokBool false)).
Proof.
  apply (rebuild_keeps_duplicates_first_wins (initial None no_answer)
           duplicate_hosts (js "a") None
           (sample_host "a" "1.2.3.4" 22 (Some (TokBool false)))).
  exists [], [sample_host "a" "5.6.7.8" 2222 (Some (TokString (js "secret")))].
  repeat split. intros x [].
Defined.

(** C3, as stated, fails: a record whose [connectionToken] is the empty
    string does not get the policy FixedToken of that string; it prompts,
    and with the box dismissed resolution fails instead of returning a
    token. *)
Lemma empty_token_counterexample :
  credentialPolicy (host_item empty_token_host) = AlwaysPrompt
  /\ credentialPolicy (host_item empty_token_host) <> FixedToken []
  /\ resolveAuthority (configured "a")
       (changed (Some [empty_token_host]) (initial None no_answer))
     = (Throw (Error (js "no token specified")),
        prompted (changed (Some [empty_token_host]) (initial None no_answer))).
Proof. repeat split. discriminate. Qed.

(** C3, amended.  The policy of the item built from a record of the
    supported kind is: token absent, AlwaysPrompt; [false], NeverPrompt;
    [true], AlwaysPrompt; a non-empty string [s], FixedToken [s]; the empty
    string, AlwaysPrompt.  When the registry answers a name with an item
    whose policy is FixedToken [s], resolution returns the token [s] and
    shows no input box. *)
Theorem credential_policy_derivation
    (w : world) (label : jsstring) (port : option Z) (c : HostConfig.t)
    (w1 : world) :
  resolveHost label w = (Return (host_item c), w1) ->
  credentialPolicy (host_item c)
  = match HostConfig.connectionToken c with
    | None => AlwaysPrompt
    | Some (TokBool false) => NeverPrompt
    | Some (TokBool true) => AlwaysPrompt
    | Some (TokString s) => if falsy s then AlwaysPrompt else FixedToken s
    end
  /\ forall s,
      credentialPolicy (host_item c) = FixedToken s ->
      resolveAuthority
        {| HostInfo.type := Configured; HostInfo.host := label;
           HostInfo.port := port |} w
      = (Return {| ResolvedAuthority.host := HostConfig.host c;
                   ResolvedAuthority.port := Some (HostConfig.port c);
                   ResolvedAuthority.connectionToken := Some s |}, w1)
      /\ shown w1 = shown w.
Proof.
  intros Hr. destruct (host_item_fields c) as (_ & _ & Eh & Ep & Ek). split.
  - unfold credentialPolicy. rewrite Ek.
    destruct (HostConfig.connectionToken c) as [[[|]|[|x s]]|]; reflexivity.
  - intros s Hs. rewrite resolveHost_spec in Hr.
    rewrite resolveAuthority_configured.
    destruct (find (label_is label) (hosts_of (tree_of w))) as [h|];
      [|discriminate].
    injection Hr as -> <-. unfold authority_of. rewrite Hs, Eh, Ep.
    split; [reflexivity|apply loaded_io].
Qed.

(** C3, amended, at the record with the token [secret]. *)
Lemma credential_policy_derivation_witness :
  credentialPolicy (host_item secret_host) = FixedToken (js "secret")
  /\ forall s,
      credentialPolicy (host_item secret_host) = FixedToken s ->
      resolveAuthority (configured "a") (initial (Some [secret_host]) no_answer)
      = (Return {| ResolvedAuthority.host := js "1.2.3.4";
                   ResolvedAuthority.port := Some 22;
                   ResolvedAuthority.connectionToken := Some s |},
         loaded (initial (Some [secret_host]) no_answer))
      /\ shown (loaded (initial (Some [secret_host]) no_answer))
         = shown (initial (Some [secret_host]) no_answer).
Proof.
  apply (credential_policy_derivation (initial (Some [secret_host]) no_answer)
           (js "a") None secret_host).
  reflexivity.
Defined.

(** C4, as stated, fails: with the marker in front, the payloads [e30=]
    and [MTIz] (the texts of an empty object and of the number 123, neither
    of them a host reference) are returned as values; nothing is thrown. *)
Lemma malformed_payload_counterexample :
  Codec.decode_remote_host (js "remote-oss+e30=")
  = Return (Some (JSON.JObject []))
  /\ Codec.decode_remote_host (js "remote-oss+MTIz")
     = Return (Some (JSON.JNumber 123 0))
  /\ Codec.decode_remote_host (js "remote-oss+e30=") <> Throw SyntaxError.
Proof. repeat split. discriminate. Qed.

(** C4, amended.  For every input that carries the marker, with [b] the
    text after the marker's first occurrence: decode never answers "not
    recognized"; it fails hard exactly when [JSON.parse] rejects the text
    that the first line of [b] holds in base64; any text that parses is
    returned as it is, whatever its shape. *)
Theorem decode_with_marker (s : jsstring) :
  (exists a b, s = a ++ Codec.marker ++ b) ->
  exists a b,
    first_marker a b s
    /\ Codec.decode_remote_host s
       = match JSON.parse
                 (Buffer.toString_utf8 (Buffer.from_base64 (Codec.dot_star b)))
         with
         | Some value => Return (Some value)
         | None => Throw SyntaxError
         end
    /\ Codec.decode_remote_host s <> Return None.
Proof.
  intros H. destruct (first_marker_exists s H) as (a & b & Hf).
  exists a, b. split; [exact Hf|].
  unfold Codec.decode_remote_host. rewrite (match_marker_first a b s Hf).
  destruct (JSON.parse _); split; auto; discriminate.
Qed.

(** C4, amended, at the marker followed by [!]. *)
Lemma decode_with_marker_witness :
  exists a b,
    first_marker a b (js "remote-oss+!")
    /\ Codec.decode_remote_host (js "remote-oss+!")
       = match JSON.parse
                 (Buffer.toString_utf8 (Buffer.from_base64 (Codec.dot_star b)))
         with
         | Some value => Return (Some value)
         | None => Throw SyntaxError
         end
    /\ Codec.decode_remote_host (js "remote-oss+!") <> Return None.
Proof.
  apply (decode_with_marker (js "remote-oss+!")).
  exists [], (js "!"). reflexivity.
Defined.

(** C5, as stated, fails: when the user accepts the empty input box the
    prompt returns the empty string, and the result carries no token, not
    the empty string the prompt returned. *)
Lemma transient_empty_answer_counterexample :
  fst (pickToken (initial None empty_answer)) = Return (Some [])
  /\ fst (resolveAuthority example_com (initial None empty_answer))
     = Return {| ResolvedAuthority.host := js "example.com";
                 ResolvedAuthority.port := Some 22;
                 ResolvedAuthority.connectionToken := None |}
  /\ fst (resolveAuthority example_com (initial None empty_answer))
     <> Return {| ResolvedAuthority.host := js "example.com";
                  ResolvedAuthority.port := Some 22;
                  ResolvedAuthority.connectionToken := Some [] |}.
Proof. repeat split. discriminate. Qed.

(** C5, amended.  Resolving a transient reference never fails: it shows one
    input box and returns the reference's host and port, with the answer as
    token when the answer is a non-empty string, and with no token when the
    box was dismissed or left empty. *)
Theorem resolve_transient (r : HostInfo.t) (w : world) :
  HostInfo.type r = Transient ->
  resolveAuthority r w
  = (Return {| ResolvedAuthority.host := HostInfo.host r;
               ResolvedAuthority.port := HostInfo.port r;
               ResolvedAuthority.connectionToken :=
                 if js_not (inputBox w (shown w)) then None
                 else inputBox w (shown w) |},
     prompted w).
Proof.
  destruct r as [t host port]. cbn [HostInfo.type]. intros ->.
  apply resolveAuthority_transient.
Qed.

(** C5, amended, at [example.com:22] and the user who types [tok]. *)
Lemma resolve_transient_witness :
  resolveAuthority example_com (initial None tok_answer)
  = (Return {| ResolvedAuthority.host := js "example.com";
               ResolvedAuthority.port := Some 22;
               ResolvedAuthority.connectionToken := Some (js "tok") |},
     prompted (initial None tok_answer)).
Proof.
  apply (resolve_transient example_com (initial None tok_answer)). reflexivity.
Defined.

(** C6.  When the registry answers a configured reference with an entry
    whose policy is AlwaysPrompt and the credential prompt yields none,
    resolution fails with the error "no token specified"; no connection
    parameters are returned. *)
Theorem configured_prompt_none_fails
    (w : world) (label : jsstring) (port : option Z) (h : PlainHostItem.t)
    (w1 : world) :
  resolveHost label w = (Return h, w1) ->
  credentialPolicy h = AlwaysPrompt ->
  inputBox w (shown w) = None ->
  resolveAuthority
    {| HostInfo.type := Configured; HostInfo.host := label;
       HostInfo.port := port |} w
  = (Throw (Error (js "no token specified")), prompted w1).
Proof.
  intros Hr Hp Ha. rewrite resolveHost_spec in Hr.
  rewrite resolveAuthority_configured.
  destruct (find (label_is label) (hosts_of (tree_of w))) as [h'|];
    [|discriminate].
  injection Hr as -> <-. unfold authority_of. rewrite Hp.
  destruct (loaded_io w) as [-> ->]. rewrite Ha. reflexivity.
Qed.

(** C6 at the record without a token and the user who dismisses the box. *)
Lemma configured_prompt_none_fails_witness :
  resolveAuthority (configured "a") (initial (Some [prompting_host]) no_answer)
  = (Throw (Error (js "no token specified")),
     prompted (loaded (initial (Some [prompting_host]) no_answer))).
Proof.
  apply (configured_prompt_none_fails
           (initial (Some [prompting_host]) no_answer) (js "a") None
           (host_item prompting_host));
    reflexivity.
Defined.

(** C7, as stated, fails: the handler accepts inputs of neither of the
    design's forms.  The input [[not an address]:80] opens a folder for
    the host [not an address], though the bracketed text is no IPv6
    literal and the text before the last colon no hostname. *)
Lemma transient_input_counterexample :
  connectToTemporaryHost (Some (js "[not an address]:80"))
  = openFolder (transient_uri (js "not an address") 80)
  /\ ~ design_form (js "[not an address]:80").
Proof.
  split; [reflexivity|].
  intros (h & d & _ & [[E Hh]|[E Hh]]).
  - destruct h as [|x h]; [discriminate E|].
    injection E as <- _. discriminate Hh.
  - destruct h as [|x h]; [discriminate E|].
    injection E as <- _. discriminate Hh.
Qed.

(** C7, amended.  The handler of the transient-host command accepts exactly
    the inputs of the shapes text:port and [text]:port, where the port is a
    non-empty run of decimal digits, the bracketed text a non-empty run
    without a closing bracket and the other text a non-empty run without a
    colon; the bracketed shape is tried first.  Every input of the
    design's two forms is among them, and gives the hostname or the
    literal as host.  The host is the text and the port the number the
    digits spell, as far as numbers are exact.  Every other
    input is answered with an error message: [example.com:22] gives host
    [example.com] and port 22, [[::1]:2222] gives host [::1] and port
    2222, and [bad-input] is rejected as an invalid host format. *)
Theorem transient_input_forms :
  (forall s,
      (exists uri, connectToTemporaryHost (Some s) = openFolder uri)
      <-> (exists h d, bracketed_form s h d \/ plain_form s h d))
  /\ (forall s,
         design_form s ->
         exists uri, connectToTemporaryHost (Some s) = openFolder uri)
  /\ (forall h d,
         port_text d ->
         port_number d <= 2 ^ 53 - 1 ->
         (is_hostname h = true ->
          connectToTemporaryHost (Some (h ++ [58] ++ d))
          = openFolder (transient_uri h (port_number d)))
         /\ (is_ipv6_literal_text h = true ->
             connectToTemporaryHost (Some ([91] ++ h ++ [93; 58] ++ d))
             = openFolder (transient_uri h (port_number d))))
  /\ (forall s h d,
         bracketed_form s h d ->
         port_number d <= 2 ^ 53 - 1 ->
         connectToTemporaryHost (Some s)
         = openFolder (transient_uri h (port_number d)))
  /\ (forall s h d,
         plain_form s h d ->
         (forall h' d', ~ bracketed_form s h' d') ->
         port_number d <= 2 ^ 53 - 1 ->
         connectToTemporaryHost (Some s)
         = openFolder (transient_uri h (port_number d)))
  /\ (forall answer,
         js_not answer = true ->
         connectToTemporaryHost answer
         = showErrorMessage (js "Host should not be empty."))
  /\ (forall s,
         falsy s = false ->
         (forall h d, ~ bracketed_form s h d) ->
         (forall h d, ~ plain_form s h d) ->
         connectToTemporaryHost (Some s) = showErrorMessage invalid_format)
  /\ connectToTemporaryHost (Some (js "example.com:22"))
     = openFolder (transient_uri (js "example.com") 22)
  /\ connectToTemporaryHost (Some (js "[::1]:2222"))
     = openFolder (transient_uri (js "::1") 2222)
  /\ connectToTemporaryHost (Some (js "bad-input"))
     = showErrorMessage invalid_format.
Proof.
  assert (forall s, match_bracketed s = None ->
                    forall h d, ~ bracketed_form s h d) as Hnb.
  { intros s E h d H. apply match_bracketed_iff in H. congruence. }
  assert (forall s, match_plain s = None -> forall h d, ~ plain_form s h d)
    as Hnp.
  { intros s E h d H. apply match_plain_iff in H. congruence. }
  assert (forall s, (forall h d, ~ bracketed_form s h d) ->
                    match_bracketed s = None) as Hbn.
  { intros s H. destruct (match_bracketed s) as [[h d]|] eqn:E; [|reflexivity].
    apply match_bracketed_iff in E. destruct (H h d E). }
  assert (forall s,
             (exists h d, bracketed_form s h d \/ plain_form s h d)
             \/ (match_bracketed s = None /\ match_plain s = None)) as Hdec.
  { intros s. destruct (match_bracketed s) as [[h d]|] eqn:Eb.
    - left. exists h, d. left. apply match_bracketed_iff, Eb.
    - destruct (match_plain s) as [[h d]|] eqn:Ep; [|auto].
      left. exists h, d. right. apply match_plain_iff, Ep. }
  assert (forall s,
             (exists h d, bracketed_form s h d \/ plain_form s h d) ->
             exists uri, connectToTemporaryHost (Some s) = openFolder uri)
    as Hacc.
  { intros s (h & d & [H|H]).
    - eexists. apply (connect_bracketed s h d H).
    - destruct (match_bracketed s) as [[h' d']|] eqn:Eb.
      + apply match_bracketed_iff in Eb. eexists.
        apply (connect_bracketed s h' d' Eb).
      + eexists. apply (connect_plain s h d H Eb). }
  repeat apply conj; try reflexivity.
  - intros s. split; [|apply Hacc].
    intros [uri E]. destruct (Hdec s) as [H|[Eb Ep]]; [exact H|].
    rewrite (connect_rejected s Eb Ep) in E. discriminate.
  - intros s (h & d & Hd & [[E Hh]|[E Hh]]); apply Hacc; exists h, d.
    + right. destruct (hostname_no_colon h Hh).
      split; [exact E|]. split; [assumption|]. split; assumption.
    + left. destruct (ipv6_no_bracket h Hh).
      split; [exact E|]. split; [assumption|]. split; assumption.
  - intros h d Hd _. rewrite <- parseInt_port_number. split; intros Hh.
    + destruct (hostname_no_colon h Hh).
      apply connect_plain; [|apply hostname_not_bracketed, Hh].
      split; [reflexivity|]. split; [assumption|]. split; assumption.
    + destruct (ipv6_no_bracket h Hh). apply connect_bracketed.
      split; [reflexivity|]. split; [assumption|]. split; assumption.
  - intros s h d H _. rewrite <- parseInt_port_number.
    apply connect_bracketed, H.
  - intros s h d H Hn _. rewrite <- parseInt_port_number.
    apply connect_plain; auto.
  - intros [s|] H; [|reflexivity].
    unfold connectToTemporaryHost. cbn [js_not] in H. rewrite H. reflexivity.
  - intros s Hs Hb Hp. destruct (Hdec s) as [(h & d & [H|H])|[Eb Ep]].
    + destruct (Hb h d H).
    + destruct (Hp h d H).
    + rewrite (connect_rejected s Eb Ep), Hs. reflexivity.
Qed.

(** C8.  Some input does not begin with the marker and still decodes to a
    host reference: the pattern is not anchored, so the token of
    [example.com:22] with [xx] put before it is accepted; and so is the
    token of any valid reference with any one code unit before it. *)
Theorem decode_unanchored :
  (exists s r,
      strip_prefix Codec.marker s = None
      /\ Codec.valid r = true
      /\ Codec.decode_remote_host s = Return (Some (Codec.to_json r)))
  /\ (forall c r,
         Codec.valid r = true ->
         strip_prefix Codec.marker (c :: Codec.encode_remote_host r) = None
         /\ Codec.decode_remote_host (c :: Codec.encode_remote_host r)
            = Return (Some (Codec.to_json r))).
Proof.
  split.
  - exists (js "xx" ++ Codec.encode_remote_host example_com), example_com.
    repeat split.
  - intros c r H. split; [apply strip_prefix_shifted|].
    rewrite decode_shifted. apply decode_encode_string.
    unfold Codec.valid in H. apply andb_true_iff in H as [H _]. exact H.
Qed.

(** C9.  In every state the extension can reach, the token of a successful
    resolution, transient or configured, is absent or a non-empty string,
    never the empty string. *)
Theorem resolved_token_never_empty
    (w : world) (info : HostInfo.t) (ra : ResolvedAuthority.t) (w' : world) :
  reachable w ->
  resolveAuthority info w = (Return ra, w') ->
  ResolvedAuthority.connectionToken ra <> Some [].
Proof.
  intros Hw. apply resolved_token_nonempty, reachable_built, Hw.
Qed.

(** C9 at the record with the empty token and the user who types [tok]. *)
Lemma resolved_token_never_empty_witness :
  ResolvedAuthority.connectionToken
    {| ResolvedAuthority.host := js "1.2.3.4";
       ResolvedAuthority.port := Some 22;
       ResolvedAuthority.connectionToken := Some (js "tok") |}
  <> Some [].
Proof.
  apply (resolved_token_never_empty
           (initial (Some [empty_token_host]) tok_answer) (configured "a") _
           (prompted (loaded (initial (Some [empty_token_host]) tok_answer)))).
  - apply reach_initial.
  - reflexivity.
Defined.

(** C10.  After every rebuild, the host name each folder item carries is the
    name of the host item that holds it, and a host item whose name is not
    a string holds no folder. *)
Theorem folder_back_references
    (w : world) (r : completion unit) (w' : world) (tree : list TreeItem)
    (k : KindItem.t) (h : PlainHostItem.t) :
  readTree w = (r, w') ->
  remotesTree w' = Some tree ->
  In (Kind k) tree ->
  In h (KindItem.hosts k) ->
  (forall f, In f (PlainHostItem.folders h) ->
             PlainHostItem.name h = LabelString (FolderItem.host f))
  /\ (PlainHostItem.name h = LabelOther -> PlainHostItem.folders h = []).
Proof.
  intros Er Et Hk Hh. rewrite readTree_spec in Er. injection Er as _ <-.
  rewrite remotesTree_rebuilt in Et. injection Et as <-.
  pose proof (in_hosts_of _ k h Hk Hh) as Hin.
  apply in_built_hosts in Hin as (c & ->).
  destruct (host_item_fields c) as (_ & -> & _). split.
  - intros f Hf. apply host_item_back, Hf.
  - apply host_item_skipped.
Qed.

(** C10 at the record with two folders. *)
Lemma folder_back_references_witness :
  (forall f, In f (PlainHostItem.folders (host_item host_with_folders)) ->
             PlainHostItem.name (host_item host_with_folders)
             = LabelString (FolderItem.host f))
  /\ (PlainHostItem.name (host_item host_with_folders) = LabelOther ->
      PlainHostItem.folders (host_item host_with_folders) = []).
Proof.
  apply (folder_back_references
           (initial (Some [host_with_folders]) no_answer) (Return tt)
           (rebuilt (initial (Some [host_with_folders]) no_answer))
           [Kind {| KindItem.label := js "manual";
                    KindItem.hosts := [host_item host_with_folders] |}]
           {| KindItem.label := js "manual";
              KindItem.hosts := [host_item host_with_folders] |}
           (host_item host_with_folders)).
  - reflexivity.
  - reflexivity.
  - left. reflexivity.
  - left. reflexivity.
Defined.

(** * Further properties *)

(** ** Lemmas *)

Section CodecMore.

Lemma type_name_injective t1 t2 :
  Codec.type_name t1 = Codec.type_name t2 -> t1 = t2.
Proof. destruct t1, t2; intros E; try reflexivity; discriminate E. Qed.

Lemma to_json_injective r1 r2 : Codec.to_json r1 = Codec.to_json r2 -> r1 = r2.
Proof.
  destruct r1 as [t1 h1 [p1|]], r2 as [t2 h2 [p2|]]; unfold Codec.to_json;
    cbn [HostInfo.type HostInfo.host HostInfo.port app]; intros E;
    injection E; intros; subst; try discriminate;
    try match goal with
        | H : Codec.type_name _ = Codec.type_name _ |- _ =>
            apply type_name_injective in H; subst
        end;
    reflexivity.
Qed.

Lemma encode_injective_strings r1 r2 :
  is_string (HostInfo.host r1) = true -> is_string (HostInfo.host r2) = true ->
  Codec.encode_remote_host r1 = Codec.encode_remote_host r2 -> r1 = r2.
Proof.
  intros H1 H2 E. apply to_json_injective.
  pose proof (decode_encode_string r1 H1) as D1.
  pose proof (decode_encode_string r2 H2) as D2.
  rewrite E in D1. congruence.
Qed.

Lemma b64_char_alphabet n :
  0 <= n < 64 -> is_base64_char (Buffer.b64_char n) = true.
Proof.
  intros Hn. unfold Buffer.b64_char, is_base64_char.
  destruct (n <? 26) eqn:E1; [|destruct (n <? 52) eqn:E2;
    [|destruct (n <? 62) eqn:E3; [|destruct (n =? 62) eqn:E4]]].
  - replace (in_range 65 90 (65 + n)) with true by (symmetry; bool_lin).
    reflexivity.
  - replace (in_range 97 122 (97 + (n - 26))) with true
      by (symmetry; bool_lin).
    rewrite orb_true_r. reflexivity.
  - replace (in_range 48 57 (48 + (n - 52))) with true
      by (symmetry; bool_lin).
    rewrite orb_true_r. reflexivity.
  - reflexivity.
  - reflexivity.
Qed.

Lemma toString_base64_alphabet bs :
  forallb is_byte bs = true ->
  forallb is_base64_char (Buffer.toString_base64 bs) = true
  /\ (Z.of_nat (List.length (Buffer.toString_base64 bs))) mod 4 = 0.
Proof.
  induction bs as [|a|a b|a b c r IH] using list_ind3;
    cbn [forallb]; rewrite ?andb_true_iff; intros H.
  - auto.
  - destruct H as [Ha _]. pose proof (byte_split a Ha).
    cbn [Buffer.toString_base64 forallb List.length].
    rewrite !b64_char_alphabet by lia. auto.
  - destruct H as (Ha & Hb & _).
    pose proof (byte_split a Ha). pose proof (byte_split b Hb).
    cbn [Buffer.toString_base64 forallb List.length].
    rewrite !b64_char_alphabet by lia. auto.
  - destruct H as (Ha & Hb & Hc & Hr).
    pose proof (byte_split a Ha). pose proof (byte_split b Hb).
    pose proof (byte_split c Hc). destruct (IH Hr) as [IH1 IH2].
    cbn [Buffer.toString_base64 forallb app List.length].
    rewrite !b64_char_alphabet, IH1 by lia. split; [reflexivity|].
    rewrite !Nat2Z.inj_succ. zdm.
Qed.

End CodecMore.

Section ItemsMore.

Lemma attach_folders_items s folders : forall item,
  PlainHostItem.label item = LabelString s ->
  PlainHostItem.folders (fold_left attach_folder folders item)
  = PlainHostItem.folders item ++ map (folder_item s) folders
  /\ PlainHostItem.collapsibleState (fold_left attach_folder folders item)
     = match folders with
       | [] => PlainHostItem.collapsibleState item
       | _ :: _ => Expanded
       end.
Proof.
  induction folders as [|f folders IH]; intros item E; cbn [fold_left map].
  - rewrite app_nil_r. auto.
  - assert (attach_folder item f = PlainHostItem.addFolder item (folder_item s f))
      as ->.
    { unfold attach_folder. rewrite E. destruct f; reflexivity. }
    destruct (IH (PlainHostItem.addFolder item (folder_item s f)) E) as [-> ->].
    cbn [PlainHostItem.addFolder PlainHostItem.folders
         PlainHostItem.collapsibleState].
    rewrite <- app_assoc. split; [reflexivity|]. destruct folders; reflexivity.
Qed.

Lemma host_item_folders c s :
  HostConfig.name c = LabelString s ->
  PlainHostItem.folders (host_item c)
  = map (folder_item s)
        (match HostConfig.folders c with Some fs => fs | None => [] end)
  /\ PlainHostItem.collapsibleState (host_item c)
     = match HostConfig.folders c with
       | Some (_ :: _) => Expanded
       | _ => CollapsedNone
       end.
Proof.
  intros E. unfold host_item.
  destruct (HostConfig.folders c) as [fs|]; [|auto].
  destruct (attach_folders_items s fs
              (PlainHostItem.new (HostConfig.name c) (HostConfig.host c)
                 (HostConfig.port c)
                 (normalize_token (HostConfig.connectionToken c))) E)
    as [-> ->].
  cbn [PlainHostItem.new PlainHostItem.folders PlainHostItem.collapsibleState app].
  destruct fs; auto.
Qed.

(** A host item is expanded exactly when it holds a folder. *)
Lemma host_item_expanded c :
  PlainHostItem.collapsibleState (host_item c) = Expanded
  <-> PlainHostItem.folders (host_item c) <> [].
Proof.
  destruct (HostConfig.name c) as [s|] eqn:E.
  - destruct (host_item_folders c s E) as [-> ->].
    destruct (HostConfig.folders c) as [[|f fs]|]; cbn [map];
      split; intros H; try discriminate; try reflexivity;
      exfalso; apply H; reflexivity.
  - rewrite (host_item_skipped c E). unfold host_item.
    destruct (HostConfig.folders c) as [fs|].
    + rewrite attach_folders_skipped by exact E. cbn.
      split; [discriminate|intros H; destruct (H eq_refl)].
    + cbn. split; [discriminate|intros H; destruct (H eq_refl)].
Qed.

Lemma build_tree_shape value :
  fst (build_tree value)
  = match (match value with Some hosts => registry hosts | None => [] end) with
    | [] => []
    | h :: hs =>
        [Kind {| KindItem.label := js "manual"; KindItem.hosts := h :: hs |}]
    end.
Proof.
  destruct value as [hosts|]; [|reflexivity].
  unfold build_tree. rewrite read_hosts_spec.
  cbn [KindItem.new KindItem.hosts KindItem.label app fst].
  destruct (registry hosts); reflexivity.
Qed.

Lemma find_exists {A} (f : A -> bool) l x :
  In x l -> f x = true -> exists y, find f l = Some y /\ f y = true.
Proof.
  induction l as [|a l IH]; intros Hin Hx; [destruct Hin|].
  cbn [find]. destruct (f a) eqn:E; [eauto|].
  destruct Hin as [->|Hin]; [congruence|auto].
Qed.

End ItemsMore.

Section SessionFacts.

Lemma doResolve_spec r ss :
  Session.doResolve r ss
  = match resolveAuthority r (Session.provider ss) with
    | (Return ra, w) =>
        (Return ra,
         {| Session.provider := w;
            Session.formatters :=
              Session.formatters ss ++ [Session.formatter_of (HostInfo.host r)];
            Session.forwardedPortsViewEnabled := true |})
    | (Throw e, w) =>
        (Throw e,
         {| Session.provider := w;
            Session.formatters := Session.formatters ss;
            Session.forwardedPortsViewEnabled :=
              Session.forwardedPortsViewEnabled ss |})
    end.
Proof.
  unfold Session.doResolve, Session.bind, Session.lift.
  destruct (resolveAuthority r (Session.provider ss)) as [[ra|e] w]; reflexivity.
Qed.

Lemma as_HostInfo_to_json r : Session.as_HostInfo (Codec.to_json r) = Some r.
Proof. destruct r as [[|] h [p|]]; reflexivity. Qed.

Lemma resolve_encode r :
  is_string (HostInfo.host r) = true ->
  Session.resolve (Codec.encode_remote_host r) = Some (Session.doResolve r).
Proof.
  intros H. unfold Session.resolve. rewrite decode_encode_string by exact H.
  rewrite as_HostInfo_to_json. reflexivity.
Qed.

Lemma is_string_app a b :
  is_string (a ++ b) = true <-> is_string a = true /\ is_string b = true.
Proof. unfold is_string. rewrite forallb_app, andb_true_iff. tauto. Qed.

End SessionFacts.

Section Sync.

Lemma configuration_rebuilt w : configuration (rebuilt w) = configuration w.
Proof. unfold rebuilt. destruct (build_tree (configuration w)). reflexivity. Qed.

Lemma configuration_loaded w : configuration (loaded w) = configuration w.
Proof.
  unfold loaded. destruct (remotesTree w); [reflexivity|].
  apply configuration_rebuilt.
Qed.

Lemma synced_rebuilt w : synced (rebuilt w).
Proof.
  unfold synced. rewrite remotesTree_rebuilt, configuration_rebuilt. reflexivity.
Qed.

Lemma synced_loaded w : synced w -> synced (loaded w).
Proof.
  unfold loaded. destruct (remotesTree w) eqn:E; auto using synced_rebuilt.
Qed.

Lemma synced_prompted w : synced w -> synced (prompted w).
Proof. auto. Qed.

Lemma reachable_synced w : reachable w -> synced w.
Proof.
  induction 1 as [value answers|w value r w' _ IH E|w element r w' _ IH E
                 |w info r w' _ IH E].
  - exact I.
  - rewrite configurationChanged_spec in E. injection E as _ <-.
    apply synced_rebuilt.
  - rewrite getChildren_spec in E. injection E as _ <-.
    apply synced_loaded, IH.
  - pose proof (resolveAuthority_world info w) as Hw. rewrite E in Hw.
    cbn [snd] in Hw.
    destruct Hw as [-> | [-> | ->]];
      auto using synced_loaded, synced_prompted.
Qed.

Lemma synced_tree_of w :
  synced w -> tree_of w = fst (build_tree (configuration w)).
Proof.
  unfold synced, tree_of, loaded. destruct (remotesTree w) eqn:E.
  - rewrite E. auto.
  - rewrite remotesTree_rebuilt. reflexivity.
Qed.

Lemma synced_hosts w :
  synced w -> hosts_of (tree_of w) = map host_item (supported w).
Proof.
  intros H. rewrite (synced_tree_of w H), build_tree_hosts.
  unfold supported, registry. destruct (configuration w); reflexivity.
Qed.


Lemma supported_loaded w : supported (loaded w) = supported w.
Proof. unfold supported. rewrite configuration_loaded. reflexivity. Qed.

Lemma pickHostLabel_spec other quickPick w :
  Picker.pickHostLabel other quickPick w
  = (Return
       match quickPick
               (map (fun h => Picker.template other (PlainHostItem.label h))
                    (hosts_of (tree_of w))) with
       | Some (label :: _) =>
           Some (Codec.encode_remote_host
                   {| HostInfo.type := Configured; HostInfo.host := label;
                      HostInfo.port := None |})
       | _ => None
       end,
     loaded w).
Proof.
  unfold Picker.pickHostLabel, bind. rewrite getHostList_spec.
  destruct (quickPick _) as [[|label ?]|]; reflexivity.
Qed.

Lemma offered_labels other w :
  map (fun h => Picker.template other (PlainHostItem.label h))
      (map host_item (supported w))
  = offered other w.
Proof.
  unfold offered. rewrite map_map. apply map_ext. intros c.
  destruct (host_item_fields c) as (-> & _). reflexivity.
Qed.

Lemma named_found other w label :
  named w ->
  In label (offered other w) ->
  is_string label = true
  /\ exists h,
      find (label_is label) (map host_item (supported w)) = Some h
      /\ PlainHostItem.label h = LabelString label.
Proof.
  intros Hn Hin. unfold offered in Hin. apply in_map_iff in Hin as (c & Hl & Hc).
  destruct (Hn c Hc) as (s & En & Hs). rewrite En in Hl. cbn in Hl. subst s.
  split; [exact Hs|].
  destruct (find (label_is label) (map host_item (supported w))) as [h|] eqn:Ef.
  - exists h. split; [reflexivity|].
    apply find_some in Ef as [_ Hl]. apply label_is_true, Hl.
  - exfalso.
    assert (In (host_item c) (map host_item (supported w))) as Hi
      by (apply in_map, Hc).
    pose proof (find_none _ _ Ef _ Hi) as Hf.
    assert (label_is label (host_item c) = true) as Ht.
    { apply label_is_true. destruct (host_item_fields c) as (-> & _). exact En. }
    congruence.
Qed.

End Sync.

Section Undefined.

Lemma decode_undefined_marker s :
  Codec.decode_remote_host s = Return None ->
  forall a b, s <> a ++ Codec.marker ++ b.
Proof.
  intros E a b Es.
  destruct (first_marker_exists s (ex_intro _ a (ex_intro _ b Es)))
    as (a' & b' & Hf).
  unfold Codec.decode_remote_host in E.
  rewrite (match_marker_first a' b' s Hf) in E.
  destruct (JSON.parse _); discriminate.
Qed.

End Undefined.

Section InFlightFacts.

Lemma readTree_begin_spec w :
  InFlight.readTree_begin w
  = (Return (fst (build_tree (configuration w))),
     {| configuration := configuration w; remotesTree := remotesTree w;
        noHosts := Some (Nat.eqb (snd (build_tree (configuration w))) 0);
        fired := fired w; inputBox := inputBox w; shown := shown w |}).
Proof.
  unfold InFlight.readTree_begin, bind, getConfiguration.
  destruct (build_tree (configuration w)). reflexivity.
Qed.

Lemma readTree_end_spec tree w :
  InFlight.readTree_end tree w
  = (Return tt,
     {| configuration := configuration w; remotesTree := Some tree;
        noHosts := noHosts w; fired := S (fired w);
        inputBox := inputBox w; shown := shown w |}).
Proof. reflexivity. Qed.

(** [readTree] is its two parts, one after the other. *)
Lemma readTree_split w :
  readTree w
  = (tree <- InFlight.readTree_begin ;; InFlight.readTree_end tree) w.
Proof.
  unfold bind at 1. rewrite readTree_begin_spec, readTree_end_spec, readTree_spec.
  unfold rebuilt. destruct (build_tree (configuration w)). reflexivity.
Qed.

Lemma getChildren_answer_spec element tree w :
  remotesTree w = Some tree ->
  InFlight.getChildren_answer element w = (Return (children element tree), w).
Proof.
  intros E. unfold InFlight.getChildren_answer, bind, get_remotesTree.
  destruct element as [[k|h|f]|]; try reflexivity. rewrite E. reflexivity.
Qed.

Lemma getChildren_call_stored element tree w :
  remotesTree w = Some tree ->
  InFlight.getChildren_call element w
  = (inl (Return (children element tree)), w).
Proof.
  intros E. unfold InFlight.getChildren_call.
  rewrite E, (getChildren_answer_spec element tree w E). reflexivity.
Qed.

Lemma getChildren_call_begin element w :
  remotesTree w = None ->
  InFlight.getChildren_call element w
  = (inr {| InFlight.element := element;
            InFlight.tree := fst (build_tree (configuration w)) |},
     snd (InFlight.readTree_begin w)).
Proof.
  intros E. unfold InFlight.getChildren_call.
  rewrite E, readTree_begin_spec. reflexivity.
Qed.

Lemma getChildren_resume_spec a w :
  InFlight.getChildren_resume a w
  = (Return (children (InFlight.element a) (InFlight.tree a)),
     snd (InFlight.readTree_end (InFlight.tree a) w)).
Proof.
  unfold InFlight.getChildren_resume, bind. rewrite readTree_end_spec.
  rewrite (getChildren_answer_spec _ (InFlight.tree a)) by reflexivity.
  reflexivity.
Qed.

(** A call that nothing interrupts is [getChildren]. *)
Lemma getChildren_split element w :
  getChildren element w
  = match InFlight.getChildren_call element w with
    | (inl r, w') => (r, w')
    | (inr a, w') => InFlight.getChildren_resume a w'
    end.
Proof.
  rewrite getChildren_spec. destruct (remotesTree w) as [tree|] eqn:E.
  - rewrite (getChildren_call_stored element tree w E).
    unfold tree_of, loaded. rewrite E, E. reflexivity.
  - rewrite (getChildren_call_begin element w E), getChildren_resume_spec.
    rewrite readTree_begin_spec, readTree_end_spec.
    cbn [snd InFlight.element InFlight.tree configuration noHosts fired
         inputBox shown].
    unfold tree_of, loaded. rewrite E, remotesTree_rebuilt.
    unfold rebuilt. destruct (build_tree (configuration w)). reflexivity.
Qed.

Lemma configurationChanged_begin_spec value w :
  InFlight.configurationChanged_begin value w
  = (Return (fst (build_tree value)),
     {| configuration := value; remotesTree := remotesTree w;
        noHosts := Some (Nat.eqb (snd (build_tree value)) 0);
        fired := fired w; inputBox := inputBox w; shown := shown w |}).
Proof.
  unfold InFlight.configurationChanged_begin. rewrite readTree_begin_spec.
  reflexivity.
Qed.

(** The handler that nothing interrupts is its two parts. *)
Lemma configurationChanged_split value w :
  configurationChanged value w
  = (tree <- InFlight.configurationChanged_begin value ;;
     InFlight.readTree_end tree) w.
Proof.
  unfold bind. rewrite configurationChanged_begin_spec, readTree_end_spec,
    configurationChanged_spec.
  unfold changed, rebuilt. cbn [configuration remotesTree noHosts fired
                                inputBox shown].
  destruct (build_tree value). reflexivity.
Qed.

End InFlightFacts.

Section Authority.

Lemma authority_run_clean s c :
  In c (authority_run s) -> ends_authority c = false.
Proof.
  induction s as [|x s IH]; cbn [authority_run]; [intros []|].
  destruct (ends_authority x) eqn:E; [intros []|].
  intros [<-|H]; auto.
Qed.

(** The run is the text in front exactly when the text holds no delimiter
    and a delimiter, or nothing, follows it. *)
Lemma authority_run_app t p :
  authority_run (t ++ p) = t
  <-> (forall c, In c t -> ends_authority c = false)
      /\ starts_delimited p = true.
Proof.
  induction t as [|x t IH]; cbn [app].
  - split.
    + intros E. split; [intros c []|].
      destruct p as [|c p]; [reflexivity|]. cbn [authority_run] in E.
      cbn [starts_delimited]. destruct (ends_authority c); [reflexivity|].
      discriminate E.
    + intros [_ H]. destruct p as [|c p]; [reflexivity|].
      cbn [starts_delimited] in H. cbn [authority_run]. rewrite H.
      reflexivity.
  - cbn [authority_run]. destruct (ends_authority x) eqn:Ex.
    + split; [discriminate|]. intros [H _].
      rewrite (H x) in Ex by (left; reflexivity). discriminate.
    + split.
      * intros E. injection E as E. apply IH in E as [Ht Hp].
        split; [|exact Hp]. intros c [<-|Hc]; auto.
      * intros [Ht Hp]. f_equal. apply IH. split; [|exact Hp].
        intros c Hc. apply Ht. right. exact Hc.
Qed.

Lemma base64_char_delimiter c :
  is_base64_char c = true -> ends_authority c = true -> c = 47.
Proof.
  unfold is_base64_char, ends_authority.
  rewrite !orb_true_iff, !in_range_true, !Z.eqb_eq. lia.
Qed.

(** The one delimiter a token can hold is the slash. *)
Lemma token_delimiters r c :
  is_string (HostInfo.host r) = true ->
  In c (Codec.encode_remote_host r) -> ends_authority c = true -> c = 47.
Proof.
  intros Hs Hc He. unfold Codec.encode_remote_host in Hc.
  apply in_app_or in Hc as [Hc|Hc].
  - exfalso. revert Hc He. clear.
    intros Hc. repeat (destruct Hc as [<-|Hc]; [discriminate|]). destruct Hc.
  - assert (forallb is_base64_char
              (Buffer.toString_base64
                 (Buffer.from_utf8 (Codec.JSON_stringify r))) = true) as Ha.
    { apply toString_base64_alphabet, from_utf8_bytes, is_string_WellFormed,
        WellFormed_stringify, Hs. }
    rewrite forallb_forall in Ha. apply base64_char_delimiter; auto.
Qed.

Lemma uri_authority_token r path :
  is_string (HostInfo.host r) = true ->
  uri_authority
    (js "vscode-remote://" ++ Codec.encode_remote_host r ++ path)
  = Some (Codec.encode_remote_host r)
  <-> ~ In 47 (Codec.encode_remote_host r) /\ starts_delimited path = true.
Proof.
  intros Hs. unfold uri_authority. rewrite strip_prefix_app.
  cbn [option_map]. split.
  - intros E.
    assert (authority_run (Codec.encode_remote_host r ++ path)
            = Codec.encode_remote_host r) as E' by congruence.
    apply authority_run_app in E' as [Ht Hp].
    split; [|exact Hp]. intros H. pose proof (Ht 47 H) as Hc.
    discriminate Hc.
  - intros [Hn Hp]. f_equal. apply authority_run_app. split; [|exact Hp].
    intros c Hc. destruct (ends_authority c) eqn:E; [|reflexivity].
    rewrite (token_delimiters r c Hs Hc E) in Hc. contradiction.
Qed.

(** A transient token with a slash: the one of the input [a?:1]. *)
Lemma transient_token_slash :
  connectToTemporaryHost (Some (js "a?:1"))
  = openFolder (transient_uri (js "a?") 1)
  /\ In 47 (Codec.encode_remote_host (transient (js "a?") 1)).
Proof. split; [reflexivity|]. vm_compute. tauto. Qed.

Lemma find_first {A} (f : A -> bool) l x :
  find f l = Some x ->
  exists pre post,
    l = pre ++ x :: post /\ f x = true /\ forall y, In y pre -> f y = false.
Proof.
  induction l as [|a l IH]; [discriminate|]. cbn [find].
  destruct (f a) eqn:E.
  - intros H. injection H as <-. exists [], l. repeat split; auto.
    intros y [].
  - intros H. destruct (IH H) as (pre & post & -> & Hx & Hp).
    exists (a :: pre), post. repeat split; auto.
    intros y [<-|Hy]; auto.
Qed.

Lemma find_first_with_label label hosts found :
  find (label_is label) hosts = Some found ->
  first_with_label label hosts found.
Proof.
  intros H. destruct (find_first _ _ _ H) as (pre & post & -> & Hx & Hp).
  exists pre, post. split; [reflexivity|]. split; [apply label_is_true, Hx|].
  intros y Hy Hl. apply label_is_true in Hl. rewrite (Hp y Hy) in Hl.
  discriminate.
Qed.

Lemma representable_string r :
  representable r = true -> is_string (HostInfo.host r) = true.
Proof. unfold representable. rewrite andb_true_iff. tauto. Qed.

End Authority.

(** ** The properties *)

(** X1.  Distinct host references have distinct tokens, for references
    whose host is a string and whose port, if there is one, is a safe
    integer. *)
Theorem encode_injective (r1 r2 : HostInfo.t) :
  representable r1 = true ->
  representable r2 = true ->
  r1 <> r2 ->
  Codec.encode_remote_host r1 <> Codec.encode_remote_host r2.
Proof.
  intros H1 H2 Hne E. apply Hne.
  apply encode_injective_strings; auto using representable_string.
Qed.

(** X1 at [example.com:22] and the configured host [a]. *)
Lemma encode_injective_witness :
  Codec.encode_remote_host example_com
  <> Codec.encode_remote_host (configured "a").
Proof.
  apply (encode_injective example_com (configured "a"));
    [reflexivity|reflexivity|discriminate].
Defined.

(** X2.  Decoding answers [undefined] exactly for the inputs that do not
    carry the marker anywhere; for those it never throws. *)
Theorem decode_undefined_iff (s : jsstring) :
  Codec.decode_remote_host s = Return None
  <-> forall a b, s <> a ++ Codec.marker ++ b.
Proof.
  split; [apply decode_undefined_marker|apply decode_without_marker].
Qed.

(** X3.  A token is the marker followed by base64 text: a multiple of four
    characters, each a letter, a digit, [+], [/] or [=]; and a slash does
    occur, as in the token of the configured host [?]. *)
Theorem token_alphabet :
  (forall r,
      is_string (HostInfo.host r) = true ->
      exists body,
        Codec.encode_remote_host r = Codec.marker ++ body
        /\ forallb is_base64_char body = true
        /\ Z.of_nat (List.length body) mod 4 = 0)
  /\ In 47 (Codec.encode_remote_host question_mark).
Proof.
  split.
  - intros r H. unfold Codec.encode_remote_host. eexists. split; [reflexivity|].
    apply toString_base64_alphabet, from_utf8_bytes, is_string_WellFormed,
      WellFormed_stringify, H.
  - vm_compute. tauto.
Qed.

(** X4.  [readTree] never fails.  It leaves the tree empty when the settings
    hold no record of the supported kind and otherwise one group [manual]
    with the items of those records in their order; it sets the context key
    [noHosts] to whether there is none, fires one change event, and leaves
    the settings and the input boxes alone. *)
Theorem readTree_outcome (w : world) :
  exists w',
    readTree w = (Return tt, w')
    /\ remotesTree w'
       = Some match map host_item (supported w) with
              | [] => []
              | h :: hs =>
                  [Kind {| KindItem.label := js "manual";
                           KindItem.hosts := h :: hs |}]
              end
    /\ noHosts w'
       = Some match supported w with [] => true | _ :: _ => false end
    /\ fired w' = S (fired w)
    /\ configuration w' = configuration w
    /\ inputBox w' = inputBox w
    /\ shown w' = shown w.
Proof.
  exists (rebuilt w). split; [apply readTree_spec|].
  rewrite remotesTree_rebuilt, build_tree_shape.
  pose proof (build_tree_count (configuration w)) as Hc.
  unfold rebuilt, supported, registry in *.
  destruct (build_tree (configuration w)) as [tree n]. cbn [snd] in Hc.
  cbn [noHosts fired configuration inputBox shown]. subst n.
  destruct (configuration w) as [hosts|]; [|repeat split].
  destruct (filter is_manual hosts); repeat split.
Qed.

(** X5.  [getChildren] begins a read of the settings exactly when it finds
    no tree stored.  With a tree stored, an empty one included, it answers
    at once and changes nothing.  Without one it begins [readTree] and
    awaits; the tree is stored only when the read goes on, with one change
    event.  So calls made one after another read at most once, while a
    call that arrives before the awaited read has gone on finds no tree
    either and reads again: two overlapping calls read twice and fire two
    events. *)
Theorem getChildren_reads :
  (forall element w tree,
      remotesTree w = Some tree ->
      InFlight.getChildren_call element w
      = (inl (Return (children element tree)), w))
  /\ (forall element w,
         remotesTree w = None ->
         exists w1,
           InFlight.getChildren_call element w
           = (inr {| InFlight.element := element;
                     InFlight.tree := fst (build_tree (configuration w)) |},
              w1)
           /\ remotesTree w1 = None
           /\ configuration w1 = configuration w
           /\ fired w1 = fired w)
  /\ (forall a w,
         exists w',
           InFlight.getChildren_resume a w
           = (Return (children (InFlight.element a) (InFlight.tree a)), w')
           /\ remotesTree w' = Some (InFlight.tree a)
           /\ fired w' = S (fired w))
  /\ (forall element w,
         getChildren element w
         = match InFlight.getChildren_call element w with
           | (inl r, w') => (r, w')
           | (inr a, w') => InFlight.getChildren_resume a w'
           end)
  /\ (forall first second w,
         exists items1 items2 w1,
           getChildren first w = (Return items1, w1)
           /\ getChildren second w1 = (Return items2, w1)
           /\ (fired w1 = fired w \/ fired w1 = S (fired w))
           /\ (remotesTree w <> None -> w1 = w))
  /\ (forall first second w,
         remotesTree w = None ->
         exists a1 w1 a2 w2 items1 w3 items2 w4,
           InFlight.getChildren_call first w = (inr a1, w1)
           /\ InFlight.getChildren_call second w1 = (inr a2, w2)
           /\ InFlight.getChildren_resume a1 w2 = (Return items1, w3)
           /\ InFlight.getChildren_resume a2 w3 = (Return items2, w4)
           /\ fired w4 = S (S (fired w))).
Proof.
  repeat apply conj.
  - intros element w tree E. apply getChildren_call_stored, E.
  - intros element w E. eexists. split; [apply getChildren_call_begin, E|].
    rewrite readTree_begin_spec. cbn [snd]. auto.
  - intros a w. eexists. split; [apply getChildren_resume_spec|].
    rewrite readTree_end_spec. cbn [snd]. auto.
  - apply getChildren_split.
  - intros first second w.
    exists (children first (tree_of w)),
      (children second (tree_of (loaded w))), (loaded w).
    rewrite !getChildren_spec, loaded_idem. repeat split.
    + unfold loaded, rebuilt. destruct (remotesTree w); [auto|].
      destruct (build_tree (configuration w)). auto.
    + unfold loaded. destruct (remotesTree w); [reflexivity|].
      intros H. destruct (H eq_refl).
  - intros first second w E.
    assert (remotesTree (snd (InFlight.readTree_begin w)) = None) as E1
      by (rewrite readTree_begin_spec; exact E).
    do 8 eexists.
    split; [apply getChildren_call_begin, E|].
    split; [apply getChildren_call_begin, E1|].
    split; [apply getChildren_resume_spec|].
    split; [apply getChildren_resume_spec|].
    rewrite !readTree_end_spec, !readTree_begin_spec. reflexivity.
Qed.

(** X6.  The folders of a host item are the entries of the record in their
    order, each under the host's name, a bare path serving as its own
    label; the item is expanded exactly when there is an entry. *)
Theorem folders_in_order (c : HostConfig.t) (s : jsstring)
    (folders : list FolderConfig) :
  HostConfig.name c = LabelString s ->
  HostConfig.folders c = Some folders ->
  PlainHostItem.folders (host_item c) = map (folder_item s) folders
  /\ PlainHostItem.collapsibleState (host_item c)
     = match folders with [] => CollapsedNone | _ :: _ => Expanded end.
Proof.
  intros En Ef. destruct (host_item_folders c s En) as [-> ->].
  rewrite Ef. split; [reflexivity|]. destruct folders; reflexivity.
Qed.

(** X6 at the record with two folders. *)
Lemma folders_in_order_witness :
  PlainHostItem.folders (host_item host_with_folders)
  = map (folder_item (js "a"))
        [FolderPath (js "/srv"); FolderEntry (js "www") (js "/var/www")]
  /\ PlainHostItem.collapsibleState (host_item host_with_folders) = Expanded.
Proof.
  apply (folders_in_order host_with_folders (js "a")
           [FolderPath (js "/srv"); FolderEntry (js "www") (js "/var/www")]);
    reflexivity.
Defined.

(** X7.  In every state the extension can reach, the tree is empty or one
    group [manual] with at least one host, and every host item has its
    label as name and is expanded exactly when it holds a folder. *)
Theorem tree_shape (w : world) (tree : list TreeItem) :
  reachable w ->
  remotesTree w = Some tree ->
  (tree = []
   \/ exists k,
       tree = [Kind k] /\ KindItem.label k = js "manual"
       /\ KindItem.hosts k <> [])
  /\ forall h,
      In h (hosts_of tree) ->
      PlainHostItem.name h = PlainHostItem.label h
      /\ (PlainHostItem.collapsibleState h = Expanded
          <-> PlainHostItem.folders h <> []).
Proof.
  intros Hr Et. apply reachable_built in Hr. unfold built in Hr.
  rewrite Et in Hr. destruct Hr as (value & ->). split.
  - rewrite build_tree_shape.
    destruct (match value with Some hosts => registry hosts | None => [] end);
      [auto|].
    right. eexists. repeat split. discriminate.
  - intros h Hh. apply in_built_hosts in Hh as (c & ->).
    destruct (host_item_fields c) as (-> & -> & _).
    split; [reflexivity|apply host_item_expanded].
Qed.

(** X7 after a rebuild from the two records named [a]. *)
Lemma tree_shape_witness :
  ([Kind {| KindItem.label := js "manual";
            KindItem.hosts := map host_item duplicate_hosts |}] = []
   \/ exists k,
       [Kind {| KindItem.label := js "manual";
                KindItem.hosts := map host_item duplicate_hosts |}] = [Kind k]
       /\ KindItem.label k = js "manual"
       /\ KindItem.hosts k <> [])
  /\ forall h,
      In h (hosts_of
              [Kind {| KindItem.label := js "manual";
                       KindItem.hosts := map host_item duplicate_hosts |}]) ->
      PlainHostItem.name h = PlainHostItem.label h
      /\ (PlainHostItem.collapsibleState h = Expanded
          <-> PlainHostItem.folders h <> []).
Proof.
  apply (tree_shape after_duplicates).
  - apply (reach_configuration (initial None no_answer) (Some duplicate_hosts)
             (Return tt) after_duplicates (reach_initial None no_answer)).
    reflexivity.
  - reflexivity.
Defined.

(** X8.  [resolveHost] shows no input box and leaves the settings alone.  It
    returns an item of the host list that carries the label, or, when no
    item does, throws NotAvailable with the text that the host is not
    configured. *)
Theorem resolveHost_outcome (label : jsstring) (w : world) :
  exists w',
    snd (resolveHost label w) = w'
    /\ shown w' = shown w
    /\ inputBox w' = inputBox w
    /\ configuration w' = configuration w
    /\ ((exists h hosts,
            resolveHost label w = (Return h, w')
            /\ getHostList w = (Return hosts, w')
            /\ In h hosts
            /\ PlainHostItem.label h = LabelString label)
        \/ (exists hosts,
               resolveHost label w
               = (Throw (NotAvailable
                           (js "Host " ++ label ++ js " is not configured.")),
                  w')
               /\ getHostList w = (Return hosts, w')
               /\ forall h, In h hosts ->
                            PlainHostItem.label h <> LabelString label)).
Proof.
  exists (loaded w). rewrite resolveHost_spec, getHostList_spec.
  destruct (loaded_io w) as [Ei Es].
  repeat split; auto.
  - unfold loaded, rebuilt. destruct (remotesTree w); [reflexivity|].
    destruct (build_tree (configuration w)). reflexivity.
  - destruct (find (label_is label) (hosts_of (tree_of w))) as [h|] eqn:Ef.
    + left. apply find_some in Ef as [Hin Hl]. apply label_is_true in Hl.
      exists h, (hosts_of (tree_of w)). auto.
    + right. exists (hosts_of (tree_of w)). repeat split.
      intros h Hin Hl. apply label_is_true in Hl.
      pose proof (find_none _ _ Ef h Hin). congruence.
Qed.

(** X9.  A resolution shows at most one input box and never touches the
    settings or the answers to come. *)
Theorem resolveAuthority_frame (info : HostInfo.t) (w : world) :
  configuration (snd (resolveAuthority info w)) = configuration w
  /\ inputBox (snd (resolveAuthority info w)) = inputBox w
  /\ (shown (snd (resolveAuthority info w)) = shown w
      \/ shown (snd (resolveAuthority info w)) = S (shown w)).
Proof.
  assert (configuration (loaded w) = configuration w) as Ec.
  { unfold loaded, rebuilt. destruct (remotesTree w); [reflexivity|].
    destruct (build_tree (configuration w)). reflexivity. }
  destruct (loaded_io w) as [Ei Es].
  destruct (resolveAuthority_world info w) as [-> | [-> | ->]];
    unfold prompted, showInputBox; cbn [snd configuration inputBox shown];
    rewrite ?Ec, ?Ei, ?Es; auto.
Qed.



(** X11.  The resolver undoes the encoding: the token of a host reference
    whose host is a string and whose port, if there is one, is a safe
    integer resolves as that reference. *)
Theorem resolve_of_token (r : HostInfo.t) :
  representable r = true ->
  Session.resolve (Codec.encode_remote_host r) = Some (Session.doResolve r).
Proof. intros H. apply resolve_encode, representable_string, H. Qed.

(** X11 at [example.com:22]. *)
Lemma resolve_of_token_witness :
  Session.resolve (Codec.encode_remote_host example_com)
  = Some (Session.doResolve example_com).
Proof. apply (resolve_of_token example_com). reflexivity. Defined.

(** X12.  An authority without the marker is answered with NotAvailable
    [Invalid], and the session stays as it was. *)
Theorem resolve_without_marker (authority : jsstring) :
  (forall a b, authority <> a ++ Codec.marker ++ b) ->
  exists run,
    Session.resolve authority = Some run
    /\ forall ss, run ss = (Throw (NotAvailable (js "Invalid")), ss).
Proof.
  intros H. unfold Session.resolve.
  rewrite (decode_without_marker authority H).
  eexists. split; reflexivity.
Qed.

(** X12 at [localhost]. *)
Lemma resolve_without_marker_witness :
  exists run,
    Session.resolve (js "localhost") = Some run
    /\ forall ss, run ss = (Throw (NotAvailable (js "Invalid")), ss).
Proof.
  apply (resolve_without_marker (js "localhost")).
  apply decode_undefined_marker. reflexivity.
Defined.

(** X13.  [doResolve] registers the label formatter of the reference's host
    and enables the ports view exactly when the provider resolves the
    reference; when the provider throws, the same exception leaves it and
    neither happens.  The provider stays in a state it can reach. *)
Theorem doResolve_effects (r : HostInfo.t) (ss : Session.session) :
  reachable (Session.provider ss) ->
  exists ss',
    snd (Session.doResolve r ss) = ss'
    /\ fst (Session.doResolve r ss)
       = fst (resolveAuthority r (Session.provider ss))
    /\ Session.provider ss' = snd (resolveAuthority r (Session.provider ss))
    /\ reachable (Session.provider ss')
    /\ match fst (Session.doResolve r ss) with
       | Return _ =>
           Session.formatters ss'
           = Session.formatters ss ++ [Session.formatter_of (HostInfo.host r)]
           /\ Session.forwardedPortsViewEnabled ss' = true
       | Throw _ =>
           Session.formatters ss' = Session.formatters ss
           /\ Session.forwardedPortsViewEnabled ss'
              = Session.forwardedPortsViewEnabled ss
       end.
Proof.
  intros Hr. eexists. split; [reflexivity|].
  rewrite doResolve_spec.
  destruct (resolveAuthority r (Session.provider ss)) as [[ra|e] w] eqn:E;
    cbn [fst snd Session.provider Session.formatters
         Session.forwardedPortsViewEnabled];
    repeat split; apply (reach_resolve _ r _ _ Hr E).
Qed.

(** X13 for the configured host [a] in a fresh session over the settings
    with the two records named [a]. *)
Lemma doResolve_effects_witness :
  exists ss',
    snd (Session.doResolve (configured "a") (fresh_session after_duplicates))
    = ss'
    /\ fst (Session.doResolve (configured "a") (fresh_session after_duplicates))
       = fst (resolveAuthority (configured "a") after_duplicates)
    /\ Session.provider ss'
       = snd (resolveAuthority (configured "a") after_duplicates)
    /\ reachable (Session.provider ss')
    /\ Session.formatters ss' = [Session.formatter_of (js "a")]
    /\ Session.forwardedPortsViewEnabled ss' = true.
Proof.
  apply (doResolve_effects (configured "a") (fresh_session after_duplicates)).
  apply (reach_configuration (initial None no_answer) (Some duplicate_hosts)
           (Return tt) after_duplicates (reach_initial None no_answer)).
  reflexivity.
Defined.

(** X14.  An accepted input of the transient-host command opens the URI
    made of the scheme, the token of the host and the port that were
    typed, and a slash.  Handed to the resolver, that token resolves to
    this host and this port, the number the digits spell, with the token
    typed into the input box, if any.  The authority of the URI is the
    token exactly when the token holds no slash; a token can hold one, as
    the one of the input [a?:1] does. *)
Theorem temporary_host_resolves (s h d : jsstring) :
  is_string s = true ->
  bracketed_form s h d
  \/ (plain_form s h d /\ forall h' d', ~ bracketed_form s h' d') ->
  port_number d <= 2 ^ 53 - 1 ->
  exists token uri,
    connectToTemporaryHost (Some s) = openFolder uri
    /\ uri = js "vscode-remote://" ++ token ++ js "/"
    /\ token = Codec.encode_remote_host (transient h (port_number d))
    /\ (uri_authority uri = Some token <-> ~ In 47 token)
    /\ Session.resolve token
       = Some (Session.doResolve (transient h (port_number d)))
    /\ forall ss,
        fst (Session.doResolve (transient h (port_number d)) ss)
        = Return
            {| ResolvedAuthority.host := h;
               ResolvedAuthority.port := Some (port_number d);
               ResolvedAuthority.connectionToken :=
                 let answer :=
                   inputBox (Session.provider ss) (shown (Session.provider ss)) in
                 if js_not answer then None else answer |}.
Proof.
  intros Hs Hf _.
  exists (Codec.encode_remote_host (transient h (port_number d))).
  eexists.
  assert (is_string h = true) as Hh.
  { destruct Hf as [(-> & _)|[(-> & _) _]].
    - change ([91] ++ h ++ [93; 58] ++ d) with (91 :: h ++ [93; 58] ++ d) in Hs.
      apply (is_string_app [91]) in Hs as [_ Hs].
      apply is_string_app in Hs as [Hs _]. exact Hs.
    - apply is_string_app in Hs as [Hs _]. exact Hs. }
  split; [|split; [reflexivity|split; [reflexivity|split; [|split]]]].
  - rewrite <- parseInt_port_number. destruct Hf as [Hb|[Hp Hn]].
    + apply (connect_bracketed s h d Hb).
    + apply (connect_plain s h d Hp).
      destruct (match_bracketed s) as [[h' d']|] eqn:E; [|reflexivity].
      apply match_bracketed_iff in E. destruct (Hn h' d' E).
  - rewrite (uri_authority_token (transient h (port_number d)) (js "/") Hh).
    split; [tauto|]. intros H. split; [exact H|reflexivity].
  - apply resolve_encode. exact Hh.
  - intros ss. rewrite doResolve_spec. unfold transient.
    rewrite resolveAuthority_transient. reflexivity.
Qed.

(** X14 at the input [[::1]:2222]. *)
Lemma temporary_host_resolves_witness :
  exists token uri,
    connectToTemporaryHost (Some (js "[::1]:2222")) = openFolder uri
    /\ uri = js "vscode-remote://" ++ token ++ js "/"
    /\ token = Codec.encode_remote_host (transient (js "::1") 2222)
    /\ (uri_authority uri = Some token <-> ~ In 47 token)
    /\ Session.resolve token
       = Some (Session.doResolve (transient (js "::1") 2222))
    /\ forall ss,
        fst (Session.doResolve (transient (js "::1") 2222) ss)
        = Return
            {| ResolvedAuthority.host := js "::1";
               ResolvedAuthority.port := Some 2222;
               ResolvedAuthority.connectionToken :=
                 let answer :=
                   inputBox (Session.provider ss) (shown (Session.provider ss)) in
                 if js_not answer then None else answer |}.
Proof.
  apply (temporary_host_resolves (js "[::1]:2222") (js "::1") (js "2222")).
  - reflexivity.
  - left. split; [reflexivity|]. split; [discriminate|]. split.
    + cbn. intros H. repeat (destruct H as [H|H]; [discriminate|]). exact H.
    + split; [discriminate|]. repeat constructor; cbv; discriminate.
  - vm_compute. discriminate.
Defined.



(** X16.  A picked host is configured: when the names of the settings are
    strings and the quick pick hands back an offered label, the token the
    picker answers with resolves as a configured host that [resolveHost]
    finds. *)
Theorem picked_host_resolves (other : jsstring)
    (quickPick : list jsstring -> option (list jsstring))
    (w w' : world) (token : jsstring) :
  reachable w ->
  named w ->
  picks_offered quickPick ->
  Picker.pickHostLabel other quickPick w = (Return (Some token), w') ->
  exists label h,
    Session.resolve token = Some (Session.doResolve (configured_host label))
    /\ resolveHost label w' = (Return h, w')
    /\ PlainHostItem.label h = LabelString label.
Proof.
  intros Hr Hn Hq E.
  pose proof (synced_hosts w (reachable_synced w Hr)) as Hh.
  rewrite pickHostLabel_spec, Hh, offered_labels in E.
  destruct (quickPick (offered other w)) as [[|label rest]|] eqn:Eq;
    try discriminate.
  injection E as <- <-.
  assert (In label (offered other w)) as Hin
    by (apply (Hq _ _ Eq); left; reflexivity).
  destruct (named_found other w label Hn Hin) as (Hs & h & Ef & Hl).
  exists label, h. split; [apply resolve_encode, Hs|].
  split; [|exact Hl].
  rewrite resolveHost_spec, loaded_idem.
  assert (tree_of (loaded w) = tree_of w) as ->
    by (unfold tree_of; rewrite loaded_idem; reflexivity).
  rewrite Hh, Ef. reflexivity.
Qed.

(** X16 for the user who accepts the first label, over the two records
    named [a]. *)
Lemma picked_host_resolves_witness :
  exists label h,
    Session.resolve
      (Codec.encode_remote_host (configured_host (js "a")))
    = Some (Session.doResolve (configured_host label))
    /\ resolveHost label after_duplicates = (Return h, after_duplicates)
    /\ PlainHostItem.label h = LabelString label.
Proof.
  apply (picked_host_resolves (js "undefined") pick_first
           after_duplicates after_duplicates
           (Codec.encode_remote_host (configured_host (js "a")))).
  - apply (reach_configuration (initial None no_answer) (Some duplicate_hosts)
             (Return tt) after_duplicates (reach_initial None no_answer)).
    reflexivity.
  - intros c [<-|[<-|[]]]; exists (js "a"); split; reflexivity.
  - intros items selected E. injection E as <-.
    destruct items as [|i items]; intros x Hx;
      [destruct Hx|destruct Hx as [<-|[]]; left; reflexivity].
  - reflexivity.
Defined.

(** X17.  The folder command opens the URI made of the scheme, the token
    of the folder's host name and the folder's path.  For a folder of a
    host of the tree, between calls that run one after another, that token
    resolves as a configured host that [resolveHost] finds: the first host
    of the list that carries the owner's name, which is the owner when
    names are distinct.  The authority of the URI is the token exactly
    when the token holds no slash and the path is empty or begins with a
    slash, a question mark or a number sign. *)
Theorem open_folder_resolves (w : world) (h : PlainHostItem.t)
    (f : FolderItem.t) :
  reachable w ->
  In h (hosts_of (tree_of w)) ->
  In f (PlainHostItem.folders h) ->
  is_string (FolderItem.host f) = true ->
  exists token uri found w',
    Session.openFolderInCurrentWindow (Some f) = Some uri
    /\ uri = js "vscode-remote://" ++ token ++ FolderItem.path f
    /\ token = Codec.encode_remote_host (configured_host (FolderItem.host f))
    /\ (uri_authority uri = Some token
        <-> ~ In 47 token /\ starts_delimited (FolderItem.path f) = true)
    /\ Session.resolve token
       = Some (Session.doResolve (configured_host (FolderItem.host f)))
    /\ resolveHost (FolderItem.host f) w = (Return found, w')
    /\ first_with_label (FolderItem.host f) (hosts_of (tree_of w)) found
    /\ PlainHostItem.label found = PlainHostItem.label h
    /\ ((forall other,
            In other (hosts_of (tree_of w)) ->
            PlainHostItem.label other = PlainHostItem.label h -> other = h) ->
        found = h).
Proof.
  intros Hr Hh Hf Hs.
  assert (PlainHostItem.label h = LabelString (FolderItem.host f)) as Hl.
  { destruct (built_tree_of w (reachable_built w Hr)) as (value & E).
    rewrite E in Hh. apply in_built_hosts in Hh as (c & ->).
    destruct (host_item_fields c) as (-> & _). apply host_item_back, Hf. }
  destruct (find (label_is (FolderItem.host f)) (hosts_of (tree_of w)))
    as [found|] eqn:Ef.
  - exists (Codec.encode_remote_host (configured_host (FolderItem.host f))).
    eexists. exists found, (loaded w).
    pose proof (find_first_with_label _ _ _ Ef) as Hfirst.
    apply find_some in Ef as Hfound. destruct Hfound as [Hin Hfl].
    apply label_is_true in Hfl.
    split; [reflexivity|]. split; [reflexivity|]. split; [reflexivity|].
    split; [apply (uri_authority_token (configured_host (FolderItem.host f))),
             Hs|].
    split; [apply resolve_encode, Hs|].
    split; [rewrite resolveHost_spec, Ef; reflexivity|].
    split; [exact Hfirst|].
    split; [congruence|]. intros Hu. apply Hu; [exact Hin|congruence].
  - exfalso. pose proof (find_none _ _ Ef h Hh) as Hn.
    apply label_is_true in Hl. congruence.
Qed.

(** X17 at the first folder of the record with two folders. *)
Lemma open_folder_resolves_witness :
  exists token uri found w',
    Session.openFolderInCurrentWindow
      (Some (folder_item (js "a") (FolderPath (js "/srv"))))
    = Some uri
    /\ uri = js "vscode-remote://" ++ token ++ js "/srv"
    /\ token = Codec.encode_remote_host (configured_host (js "a"))
    /\ (uri_authority uri = Some token
        <-> ~ In 47 token /\ starts_delimited (js "/srv") = true)
    /\ Session.resolve token
       = Some (Session.doResolve (configured_host (js "a")))
    /\ resolveHost (js "a") after_folders = (Return found, w')
    /\ first_with_label (js "a") (hosts_of (tree_of after_folders)) found
    /\ PlainHostItem.label found
       = PlainHostItem.label (host_item host_with_folders)
    /\ ((forall other,
            In other (hosts_of (tree_of after_folders)) ->
            PlainHostItem.label other
            = PlainHostItem.label (host_item host_with_folders) ->
            other = host_item host_with_folders) ->
        found = host_item host_with_folders).
Proof.
  apply (open_folder_resolves after_folders (host_item host_with_folders)
           (folder_item (js "a") (FolderPath (js "/srv")))).
  - apply (reach_configuration (initial None no_answer)
             (Some [host_with_folders]) (Return tt) after_folders
             (reach_initial None no_answer)).
    reflexivity.
  - left. reflexivity.
  - left. reflexivity.
  - reflexivity.
Defined.

(** X18.  The failures of a resolution.  A transient reference never
    fails.  A configured one fails in two ways only: with NotAvailable when
    no host of the list carries the name, before any input box; and with
    the error [no token specified] when the host found prompts for its
    token and the input box is dismissed or left empty. *)
Theorem resolution_failures (info : HostInfo.t) (w w' : world) (e : exn) :
  resolveAuthority info w = (Throw e, w') ->
  HostInfo.type info = Configured
  /\ ((e = NotAvailable
             (js "Host " ++ HostInfo.host info ++ js " is not configured.")
       /\ (forall h, In h (hosts_of (tree_of w)) ->
                     PlainHostItem.label h <> LabelString (HostInfo.host info))
       /\ shown w' = shown w)
      \/ (e = Error (js "no token specified")
          /\ (exists h,
                 In h (hosts_of (tree_of w))
                 /\ PlainHostItem.label h = LabelString (HostInfo.host info)
                 /\ PlainHostItem.connectionToken h = TokBool true)
          /\ js_not (inputBox w (shown w)) = true
          /\ shown w' = S (shown w))).
Proof.
  destruct info as [[|] host port]; cbn [HostInfo.type HostInfo.host].
  - rewrite resolveAuthority_transient. discriminate.
  - rewrite resolveAuthority_configured. destruct (loaded_io w) as [Ei Es].
    destruct (find (label_is host) (hosts_of (tree_of w))) as [h|] eqn:Ef.
    + apply find_some in Ef as [Hin Hl]. apply label_is_true in Hl.
      unfold authority_of, credentialPolicy.
      destruct (PlainHostItem.connectionToken h) as [[|]|s] eqn:Et;
        try discriminate.
      rewrite Ei, Es.
      destruct (js_not (inputBox w (shown w))) eqn:En; [|discriminate].
      intros E. injection E as <- <-. split; [reflexivity|]. right.
      repeat split; [exists h; auto|].
      unfold prompted, showInputBox. cbn [snd shown]. f_equal. exact Es.
    + intros E. injection E as <- <-. split; [reflexivity|]. left.
      repeat split; [|exact Es].
      intros h Hin Hl. apply label_is_true in Hl.
      pose proof (find_none _ _ Ef h Hin). congruence.
Qed.

(** X18 at the host [b], which the two records named [a] do not
    configure. *)
Lemma resolution_failures_witness :
  HostInfo.type (configured "b") = Configured
  /\ ((not_configured (js "b")
       = NotAvailable
           (js "Host " ++ HostInfo.host (configured "b")
              ++ js " is not configured.")
       /\ (forall h, In h (hosts_of (tree_of after_duplicates)) ->
                     PlainHostItem.label h
                     <> LabelString (HostInfo.host (configured "b")))
       /\ shown after_duplicates = shown after_duplicates)
      \/ (not_configured (js "b") = Error (js "no token specified")
          /\ (exists h,
                 In h (hosts_of (tree_of after_duplicates))
                 /\ PlainHostItem.label h
                    = LabelString (HostInfo.host (configured "b"))
                 /\ PlainHostItem.connectionToken h = TokBool true)
          /\ js_not (inputBox after_duplicates (shown after_duplicates)) = true
          /\ shown after_duplicates = S (shown after_duplicates))).
Proof.
  apply (resolution_failures (configured "b") after_duplicates
           after_duplicates (not_configured (js "b"))).
  reflexivity.
Defined.
